(** * llv8: the Hydrogen-to-LLVM chunk builder (src/llvm/llvm-chunk.cc)

    A shallow embedding of [LLVMChunkBuilder] and of the part of
    [LLVMChunk] that drives it.  The Hydrogen graph is a table of blocks
    and values addressed by identifiers (the C++ pointers); everything
    the builder mutates -- its own fields, the memoized LLVM handles of
    values and blocks, the environments the blocks point to -- lives in
    an explicit [State] threaded through a small state-and-failure
    monad. *)

From Stdlib Require Import ZArith List Bool Lia.
From Equations Require Import Equations.
Import ListNotations.

Set Implicit Arguments.
Local Open Scope Z_scope.

(* ------------------------------------------------------------------ *)
(** ** Results of a computation that may die *)

(** The ways a run stops for good: [UNREACHABLE()], a failed [CHECK] or
    [DCHECK], and the dereference of a null pointer. *)
Inductive Fault : Type :=
| Unreachable
| CheckFailed
| DcheckFailed
| NullPointer.

(** [Timeout] is not a behaviour of the program: it is what the embedding
    answers when the recursion budget given to [VisitInstruction] is too
    small for the chain of emit-at-use operands. *)
Inductive Result (A : Type) : Type :=
| Done (a : A)
| Fatal (f : Fault)
| Timeout.

Arguments Fatal {A} f.
Arguments Timeout {A}.

(* ------------------------------------------------------------------ *)
(** ** Representation Model: representations, tokens, predicates *)

(** [Representation::Kind], restricted to the kinds this file tests for;
    [kNone] stands for every kind none of the [Is...] tests below accepts. *)
Inductive Representation : Type :=
| kNone
| kSmi
| kInteger32
| kDouble
| kTagged
| kExternal.

Definition IsSmi (r : Representation) : bool :=
  match r with kSmi => true | _ => false end.
Definition IsInteger32 (r : Representation) : bool :=
  match r with kInteger32 => true | _ => false end.
Definition IsDouble (r : Representation) : bool :=
  match r with kDouble => true | _ => false end.
Definition IsTagged (r : Representation) : bool :=
  match r with kTagged => true | _ => false end.
Definition IsExternal (r : Representation) : bool :=
  match r with kExternal => true | _ => false end.

Definition Representation_Equals (a b : Representation) : bool :=
  match a, b with
  | kNone, kNone | kSmi, kSmi | kInteger32, kInteger32
  | kDouble, kDouble | kTagged, kTagged | kExternal, kExternal => true
  | _, _ => false
  end.

(** [Token::Value]: the operators [TokenToPredicate] names, and
    [OTHER] for the rest of the token table (its [default:] case). *)
Inductive Token : Type :=
| EQ | EQ_STRICT
| NE | NE_STRICT
| LT | GT | LTE | GTE
| IN | INSTANCEOF
| OTHER (n : nat).

(** [llvm::CmpInst::Predicate]: the ten integer predicates and the error
    value the function starts from. *)
Inductive Predicate : Type :=
| BAD_FCMP_PREDICATE
| ICMP_EQ | ICMP_NE
| ICMP_UGT | ICMP_UGE | ICMP_ULT | ICMP_ULE
| ICMP_SGT | ICMP_SGE | ICMP_SLT | ICMP_SLE.

Definition Predicate_eqb (p q : Predicate) : bool :=
  match p, q with
  | BAD_FCMP_PREDICATE, BAD_FCMP_PREDICATE
  | ICMP_EQ, ICMP_EQ | ICMP_NE, ICMP_NE
  | ICMP_UGT, ICMP_UGT | ICMP_UGE, ICMP_UGE
  | ICMP_ULT, ICMP_ULT | ICMP_ULE, ICMP_ULE
  | ICMP_SGT, ICMP_SGT | ICMP_SGE, ICMP_SGE
  | ICMP_SLT, ICMP_SLT | ICMP_SLE, ICMP_SLE => true
  | _, _ => false
  end.

(** [LLVMChunkBuilder::TokenToPredicate]. *)
Definition TokenToPredicate (op : Token) (is_unsigned : bool)
  : Result Predicate :=
  match op with
  | EQ | EQ_STRICT => Done ICMP_EQ
  | NE | NE_STRICT => Done ICMP_NE
  | LT => Done (if is_unsigned then ICMP_ULT else ICMP_SLT)
  | GT => Done (if is_unsigned then ICMP_UGT else ICMP_SGT)
  | LTE => Done (if is_unsigned then ICMP_ULE else ICMP_SLE)
  | GTE => Done (if is_unsigned then ICMP_UGE else ICMP_SGE)
  | IN | INSTANCEOF | OTHER _ => Fatal Unreachable
  end.

(** The six relational operators of the classification table. *)
Definition relational_operators : list Token := [EQ; NE; LT; GT; LTE; GTE].

(** The twelve (operator, signedness) combinations, signed first. *)
Definition combinations : list (Token * bool) :=
  list_prod relational_operators [false; true].

Definition classify (c : Token * bool) : Result Predicate :=
  TokenToPredicate (fst c) (snd c).

Definition Predicate_eq_dec (p q : Predicate) : {p = q} + {p <> q}.
Proof. decide equality. Defined.

(** The predicates the twelve combinations are classified as, in order. *)
Definition classified : list Predicate :=
  flat_map (fun c => match classify c with Done p => [p] | _ => [] end)
           combinations.

(* ------------------------------------------------------------------ *)
(** ** The code-generation target *)

(** Hydrogen values and blocks are referred to by pointer in the source;
    here by the key under which the graph stores them.  A block's key is
    its [block_id()], so comparing two [block_id()]s is comparing keys. *)
Definition HValueId := nat.
Definition BlockId := nat.

(** An [llvm::BasicBlock*]: the order of creation inside the function. *)
Definition LBasicBlock := nat.

(** [llvm::Type*]; the builder only ever asks for [getInt64Ty]. *)
Inductive LType : Type :=
| Int64Ty.

(** An [llvm::Value*], as the expression the [IRBuilder] calls built. *)
Inductive LValue : Type :=
| Argument (position : nat)
| ConstantInt64 (bits : Z)
| AddInst (lhs rhs : LValue)
| SubInst (lhs rhs : LValue)
| MulInst (lhs rhs : LValue)
| ShlInst (lhs : LValue) (amount : Z)
| LShrInst (lhs : LValue) (amount : Z)
| ICmpInst (pred : Predicate) (lhs rhs : LValue)
| BrInst (dest : LBasicBlock)
| CondBrInst (cond : LValue) (if_true if_false : LBasicBlock)
| RetInst (v : LValue).

(** [llvm::FunctionType]: the result type and the parameter types. *)
Record FunctionType : Type := mkFunctionType {
  return_type : LType;
  param_types : list LType
}.

Inductive CallingConv : Type :=
| C
| X86_64_V8.

(** [llvm::Function], as far as [Build] and [DoParameter] look at it. *)
Record LFunction : Type := mkLFunction {
  function_type : FunctionType;
  calling_conv : CallingConv
}.

(** The 64-bit words LLVM computes with, as the unsigned number of the
    bit pattern. *)
Definition wrap64 (z : Z) : Z := z mod 2 ^ 64.


(** What the emitted straight-line arithmetic computes at run time, given
    the words passed as arguments: LLVM's [add], [sub], [mul], [shl] and
    [lshr] on [i64].  Comparisons and terminators have no word value. *)
Fixpoint eval (args : nat -> Z) (v : LValue) : option Z :=
  let bin (f : Z -> Z -> Z) (a b : LValue) :=
    match eval args a, eval args b with
    | Some x, Some y => Some (wrap64 (f x y))
    | _, _ => None
    end in
  match v with
  | Argument n => Some (wrap64 (args n))
  | ConstantInt64 z => Some (wrap64 z)
  | AddInst a b => bin Z.add a b
  | SubInst a b => bin Z.sub a b
  | MulInst a b => bin Z.mul a b
  | ShlInst a k =>
      match eval args a with
      | Some x => Some (wrap64 (Z.shiftl x k))
      | None => None
      end
  | LShrInst a k =>
      match eval args a with
      | Some x => Some (Z.shiftr x k)
      | None => None
      end
  | ICmpInst _ _ _ | BrInst _ | CondBrInst _ _ _ | RetInst _ => None
  end.

(* ------------------------------------------------------------------ *)
(** ** The Hydrogen graph (read-only part) *)

(** An [HEnvironment]: the values of its slots.  Environments are heap
    objects; blocks hold references ([EnvRef]) to them. *)
Definition HEnvironment := list HValueId.
Definition EnvRef := nat.

(** The opcodes whose handler in this file is the bare
    [UNIMPLEMENTED();]. *)
Inductive StubOpcode : Type :=
| kGoto | kAbnormalExit | kAccessArgumentsAt | kAllocateBlockContext
| kAllocate | kApplyArguments | kArgumentsElements | kArgumentsLength
| kBitwise | kBoundsCheck | kBoundsCheckBaseIndexInformation | kBranch
| kCallWithDescriptor | kCallJSFunction | kCallFunction | kCallNew
| kCallNewArray | kCallRuntime | kCallStub | kCapturedObject
| kCheckHeapObject | kCheckInstanceType | kCheckMaps | kCheckMapValue
| kCheckSmi | kCheckValue | kClampToUint8 | kClassOfTestAndBranch
| kCompareHoleAndBranch | kCompareGeneric | kCompareMinusZeroAndBranch
| kCompareObjectEqAndBranch | kCompareMap | kConstructDouble | kDateField
| kDebugBreak | kDeclareGlobals | kDeoptimize | kDiv | kDoubleBits
| kDummyUse | kEnterInlined | kEnvironmentMarker | kForceRepresentation
| kForInCacheArray | kForInPrepareMap | kFunctionLiteral
| kGetCachedArrayIndex | kHasCachedArrayIndexAndBranch
| kHasInstanceTypeAndBranch | kInnerAllocatedObject | kInstanceOf
| kInstanceOfKnownGlobal | kInvokeFunction | kIsConstructCallAndBranch
| kIsObjectAndBranch | kIsStringAndBranch | kIsSmiAndBranch
| kIsUndetectableAndBranch | kLeaveInlined | kLoadContextSlot
| kLoadFieldByIndex | kLoadFunctionPrototype | kLoadGlobalCell
| kLoadGlobalGeneric | kLoadKeyed | kLoadKeyedGeneric | kLoadNamedField
| kLoadNamedGeneric | kLoadRoot | kMapEnumLength | kMathFloorOfDiv
| kMathMinMax | kMod | kOsrEntry | kPower | kPushArguments
| kRegExpLiteral | kRor | kSar | kSeqStringGetChar | kSeqStringSetChar
| kShl | kShr | kStoreCodeEntry | kStoreContextSlot | kStoreFrameContext
| kStoreGlobalCell | kStoreKeyed | kStoreKeyedGeneric | kStoreNamedField
| kStoreNamedGeneric | kStringAdd | kStringCharCodeAt
| kStringCharFromCode | kStringCompareAndBranch
| kTailCallThroughMegamorphicCache | kThisFunction | kToFastProperties
| kTransitionElementsKind | kTrapAllocationMemento | kTypeof
| kTypeofIsAndBranch | kUnaryMathOperation | kUnknownOSRValue
| kUseConst | kWrapReceiver.

(** The concrete instruction classes with what their handlers read.
    [HSimulate] carries its [ReplayEnvironment] (defined with the
    instruction classes, outside this file) as the function it applies to
    the environment it is given. *)
Inductive HOperation : Type :=
| HBlockEntry
| HContext
| HParameter (index : Z)
| HArgumentsObject
| HSimulate (ReplayEnvironment : HEnvironment -> HEnvironment)
| HStackCheck
| HConstant (Integer32Value : Z) (handle_IsSmi : bool) (smi_word : Z)
| HReturn (value : HValueId) (parameter_count : option HValueId)
| HAdd (left right : HValueId)
| HSub (left right : HValueId)
| HMul (left right : HValueId)
| HChange (value : HValueId) (from to : Representation)
| HCompareNumericAndBranch (token : Token) (left right : HValueId)
                           (SuccessorAt0 SuccessorAt1 : BlockId)
| HStub (opcode : StubOpcode).

(** An [HValue] / [HInstruction]: the queries the builder makes on any
    instruction, and its class.  [KnownSuccessorBlock] is [Some b] when
    the C++ method answers true; [b] is the block it stored, possibly
    null. *)
Record HValue : Type := mkHValue {
  operation : HOperation;
  representation : Representation;
  type_IsSmi : bool;
  kCanOverflow : bool;
  kUint32 : bool;
  EmitAtUses : bool;
  HasNoUses : bool;
  CanReplaceWithDummyUses : bool;
  IsControlInstruction : bool;
  KnownSuccessorBlock : option (option BlockId);
  operands : list HValueId;
  block : BlockId
}.

Definition IsConstant (v : HValue) : bool :=
  match operation v with HConstant _ _ _ => true | _ => false end.

(** An [HPhi] of a block: the phi value and its [merged_index()], [None]
    when [HasMergedIndex()] is false. *)
Record HPhi : Type := mkHPhi {
  phi_value : HValueId;
  merged_index : option nat
}.

(** An [HBasicBlock], stored in the graph under its [block_id()]:
    [instructions] is the chain [first()], [next()], ...; [successors]
    are the successors of [end()]. *)
Record HBasicBlock : Type := mkHBasicBlock {
  IsStartBlock : bool;
  predecessors : list BlockId;
  phis : list HPhi;
  deleted_phis : list nat;
  instructions : list HValueId;
  successors : list BlockId
}.

Definition FirstSuccessor (b : HBasicBlock) : option BlockId :=
  nth_error (successors b) 0.
Definition SecondSuccessor (b : HBasicBlock) : option BlockId :=
  nth_error (successors b) 1.

(** [CompilationInfo], as far as the builder asks. *)
Record CompilationInfo : Type := mkCompilationInfo {
  num_parameters : Z;
  IsStub : bool;
  saves_caller_doubles : bool
}.

(** [HGraph]: following a pointer is applying [value_at] or [block_at]. *)
Record HGraph : Type := mkHGraph {
  info : CompilationInfo;
  blocks : list BlockId;
  block_at : BlockId -> HBasicBlock;
  value_at : HValueId -> HValue;
  start_environment : EnvRef;
  GetConstantUndefined : HValueId
}.

(* ------------------------------------------------------------------ *)
(** ** Mutable state *)

(** [LLVMChunkBuilder::Status]; [UNUSED] is the state a fresh builder is
    constructed in. *)
Inductive Status : Type :=
| UNUSED
| BUILDING
| DONE
| ABORTED.

(** [LLVMChunk]: the identifier its code is later looked up under, once
    [set_llvm_function_id] has stored it. *)
Record LLVMChunk : Type := mkLLVMChunk {
  llvm_function_id_ : option nat
}.

(** The fields of [LLVMChunkBuilder].  [llvm_ir_builder_] is the block the
    current [IRBuilder] inserts into; [module_] is the identifier of the
    module under construction. *)
Record Builder : Type := mkBuilder {
  status_ : Status;
  current_instruction_ : option HValueId;
  current_block_ : option BlockId;
  next_block_ : option BlockId;
  argument_count_ : Z;
  llvm_ir_builder_ : option LBasicBlock;
  function_ : option LFunction;
  module_ : option nat;
  chunk_ : option LLVMChunk
}.

(** What the builder writes into the graph's objects: the memoized
    handles of values and blocks, each block's [last_environment()] and
    [argument_count()], and the environment objects themselves.  A
    reference into [environments] is a position; [Copy] appends. *)
Record GraphStore : Type := mkGraphStore {
  llvm_value : HValueId -> option LValue;
  llvm_basic_block : BlockId -> option LBasicBlock;
  last_environment : BlockId -> option EnvRef;
  argument_count : BlockId -> Z;
  environments : list HEnvironment
}.

(** The LLVM side: the blocks created in the function, the instructions
    inserted (with the block each went into, oldest first), and the
    [LLVMGranularity] session: how many modules it created and which it
    was handed back. *)
Record Target : Type := mkTarget {
  created_blocks : nat;
  inserted : list (option LBasicBlock * LValue);
  created_modules : nat;
  added_modules : list nat
}.

Record State : Type := mkState {
  builder : Builder;
  store : GraphStore;
  target : Target
}.

(** The computations of the builder. *)
Definition M (A : Type) : Type := State -> Result (A * State).

Definition ret {A} (a : A) : M A := fun s => Done (a, s).

Definition bind {A B} (m : M A) (k : A -> M B) : M B :=
  fun s =>
    match m s with
    | Done (a, s') => k a s'
    | Fatal f => Fatal f
    | Timeout => Timeout
    end.

Definition die {A} (f : Fault) : M A := fun _ => Fatal f.

Definition get {A} (f : State -> A) : M A := fun s => Done (f s, s).

Definition modify (f : State -> State) : M unit := fun s => Done (tt, f s).

Declare Scope builder_scope.
Delimit Scope builder_scope with builder.
Notation "x <- m ;; k" := (bind m (fun x => k))
  (at level 61, m at next level, right associativity) : builder_scope.
Notation "m ;; k" := (bind m (fun _ => k))
  (at level 61, right associativity) : builder_scope.
Open Scope builder_scope.

(** [CHECK(c)] and [DCHECK(c)]: a false condition is fatal. *)
Definition CHECK (c : bool) : M unit :=
  if c then ret tt else die CheckFailed.
Definition DCHECK (c : bool) : M unit :=
  if c then ret tt else die DcheckFailed.

(** [when c m]: the one-armed [if (c) m;]. *)
Definition when (c : bool) (m : M unit) : M unit :=
  if c then m else ret tt.

Fixpoint for_each {A} (l : list A) (body : A -> M unit) : M unit :=
  match l with
  | [] => ret tt
  | x :: rest => body x ;; for_each rest body
  end.

(** Field updates. *)
Definition with_builder (f : Builder -> Builder) (s : State) : State :=
  mkState (f (builder s)) (store s) (target s).
Definition with_store (f : GraphStore -> GraphStore) (s : State) : State :=
  mkState (builder s) (f (store s)) (target s).
Definition with_target (f : Target -> Target) (s : State) : State :=
  mkState (builder s) (store s) (f (target s)).

Definition set_status_ (x : Status) (b : Builder) : Builder :=
  mkBuilder x (current_instruction_ b) (current_block_ b) (next_block_ b)
    (argument_count_ b) (llvm_ir_builder_ b) (function_ b) (module_ b)
    (chunk_ b).
Definition set_current_instruction_ (x : option HValueId) (b : Builder)
  : Builder :=
  mkBuilder (status_ b) x (current_block_ b) (next_block_ b)
    (argument_count_ b) (llvm_ir_builder_ b) (function_ b) (module_ b)
    (chunk_ b).
Definition set_current_block_ (x : option BlockId) (b : Builder) : Builder :=
  mkBuilder (status_ b) (current_instruction_ b) x (next_block_ b)
    (argument_count_ b) (llvm_ir_builder_ b) (function_ b) (module_ b)
    (chunk_ b).
Definition set_next_block_ (x : option BlockId) (b : Builder) : Builder :=
  mkBuilder (status_ b) (current_instruction_ b) (current_block_ b) x
    (argument_count_ b) (llvm_ir_builder_ b) (function_ b) (module_ b)
    (chunk_ b).
Definition set_argument_count_ (x : Z) (b : Builder) : Builder :=
  mkBuilder (status_ b) (current_instruction_ b) (current_block_ b)
    (next_block_ b) x (llvm_ir_builder_ b) (function_ b) (module_ b)
    (chunk_ b).
Definition set_llvm_ir_builder_ (x : option LBasicBlock) (b : Builder)
  : Builder :=
  mkBuilder (status_ b) (current_instruction_ b) (current_block_ b)
    (next_block_ b) (argument_count_ b) x (function_ b) (module_ b)
    (chunk_ b).
Definition set_function_ (x : option LFunction) (b : Builder) : Builder :=
  mkBuilder (status_ b) (current_instruction_ b) (current_block_ b)
    (next_block_ b) (argument_count_ b) (llvm_ir_builder_ b) x (module_ b)
    (chunk_ b).
Definition set_module_ (x : option nat) (b : Builder) : Builder :=
  mkBuilder (status_ b) (current_instruction_ b) (current_block_ b)
    (next_block_ b) (argument_count_ b) (llvm_ir_builder_ b) (function_ b)
    x (chunk_ b).
Definition set_chunk_ (x : option LLVMChunk) (b : Builder) : Builder :=
  mkBuilder (status_ b) (current_instruction_ b) (current_block_ b)
    (next_block_ b) (argument_count_ b) (llvm_ir_builder_ b) (function_ b)
    (module_ b) x.

(** [upd f k v]: the table [f] with [v] stored under [k]. *)
Definition upd {V} (f : nat -> V) (k : nat) (v : V) : nat -> V :=
  fun k' => if Nat.eqb k' k then v else f k'.

Definition store_llvm_value (v : HValueId) (x : option LValue)
  (g : GraphStore) : GraphStore :=
  mkGraphStore (upd (llvm_value g) v x) (llvm_basic_block g)
    (last_environment g) (argument_count g) (environments g).
Definition store_llvm_basic_block (b : BlockId) (x : option LBasicBlock)
  (g : GraphStore) : GraphStore :=
  mkGraphStore (llvm_value g) (upd (llvm_basic_block g) b x)
    (last_environment g) (argument_count g) (environments g).
Definition store_last_environment (b : BlockId) (x : option EnvRef)
  (g : GraphStore) : GraphStore :=
  mkGraphStore (llvm_value g) (llvm_basic_block g)
    (upd (last_environment g) b x) (argument_count g) (environments g).
Definition store_argument_count (b : BlockId) (x : Z) (g : GraphStore)
  : GraphStore :=
  mkGraphStore (llvm_value g) (llvm_basic_block g) (last_environment g)
    (upd (argument_count g) b x) (environments g).
Definition store_environments (x : list HEnvironment) (g : GraphStore)
  : GraphStore :=
  mkGraphStore (llvm_value g) (llvm_basic_block g) (last_environment g)
    (argument_count g) x.

(** [replace_at l i x]: [l] with position [i] overwritten by [x]; [l]
    itself when there is no position [i]. *)
Fixpoint replace_at {A} (l : list A) (i : nat) (x : A) : list A :=
  match l, i with
  | [], _ => []
  | _ :: rest, O => x :: rest
  | y :: rest, S i' => y :: replace_at rest i' x
  end.

(* ------------------------------------------------------------------ *)
(** ** Primitives of the builder *)

Definition is_aborted (s : State) : bool :=
  match status_ (builder s) with ABORTED => true | _ => false end.
Definition is_building (s : State) : bool :=
  match status_ (builder s) with BUILDING => true | _ => false end.

(** Modelled from the spec: the [UNIMPLEMENTED()] macro is defined outside
    this file.  Reaching it is the "unimplemented-opcode abort" of the
    error taxonomy: "the unit transitions to ABORTED".  It is a statement
    like any other, so the handler goes on after it, and the drivers poll
    [is_aborted()]. *)
Definition UNIMPLEMENTED : M unit :=
  modify (with_builder (set_status_ ABORTED)).

Definition UNREACHABLE {A} : M A := die Unreachable.

(** A pure, possibly fatal, result inside the monad. *)
Definition lift {A} (r : Result A) : M A :=
  fun s =>
    match r with
    | Done a => Done (a, s)
    | Fatal f => Fatal f
    | Timeout => Timeout
    end.

(** A pointer that must not be null where it is followed. *)
Definition deref {A} (p : option A) : M A :=
  match p with
  | Some x => ret x
  | None => die NullPointer
  end.

(** [llvm_ir_builder_->Create...]: the instruction goes to the end of the
    block the builder points into and is the value returned.  There is no
    builder before the first [DoBasicBlock]. *)
Definition Insert (v : LValue) : M LValue :=
  bb <- get (fun s => llvm_ir_builder_ (builder s)) ;;
  _ <- deref bb ;;
  modify (with_target (fun t =>
    mkTarget (created_blocks t) (inserted t ++ [(bb, v)])
             (created_modules t) (added_modules t))) ;;
  ret v.

Definition CreateAdd (a b : LValue) : M LValue := Insert (AddInst a b).
Definition CreateSub (a b : LValue) : M LValue := Insert (SubInst a b).
Definition CreateMul (a b : LValue) : M LValue := Insert (MulInst a b).
Definition CreateShl (a : LValue) (k : Z) : M LValue := Insert (ShlInst a k).
Definition CreateLShr (a : LValue) (k : Z) : M LValue :=
  Insert (LShrInst a k).
Definition CreateICmp (p : Predicate) (a b : LValue) : M LValue :=
  Insert (ICmpInst p a b).
Definition CreateBr (dest : LBasicBlock) : M LValue := Insert (BrInst dest).
Definition CreateCondBr (c : LValue) (t f : LBasicBlock) : M LValue :=
  Insert (CondBrInst c t f).
Definition CreateRet (v : LValue) : M LValue := Insert (RetInst v).

(** [llvm_ir_builder_->getInt64(x)]: a constant, inserted nowhere. *)
Definition getInt64 (x : Z) : M LValue :=
  bb <- get (fun s => llvm_ir_builder_ (builder s)) ;;
  _ <- deref bb ;;
  ret (ConstantInt64 (wrap64 x)).

Definition set_llvm_value (instr : HValueId) (v : option LValue) : M unit :=
  modify (with_store (store_llvm_value instr v)).

(** [llvm::BasicBlock::Create(context, "BlockEntry", function_)]. *)
Definition BasicBlock_Create : M LBasicBlock :=
  n <- get (fun s => created_blocks (target s)) ;;
  modify (with_target (fun t =>
    mkTarget (S (created_blocks t)) (inserted t)
             (created_modules t) (added_modules t))) ;;
  ret n.

(** [LLVMChunkBuilder::Use], the overload for blocks. *)
Definition UseBlock (b : BlockId) : M LBasicBlock :=
  have <- get (fun s => llvm_basic_block (store s) b) ;;
  match have with
  | Some bb => ret bb
  | None =>
      llvm_block <- BasicBlock_Create ;;
      modify (with_store (store_llvm_basic_block b (Some llvm_block))) ;;
      ret llvm_block
  end.

(** *** Environments *)

Definition environment (e : EnvRef) : M HEnvironment :=
  env <- get (fun s => nth_error (environments (store s)) e) ;;
  deref env.

(** [HEnvironment::Copy]: a new object with the same slots. *)
Definition HEnvironment_Copy (e : EnvRef) : M EnvRef :=
  env <- environment e ;;
  fresh <- get (fun s => length (environments (store s))) ;;
  modify (with_store (fun g =>
    store_environments (environments g ++ [env]) g)) ;;
  ret fresh.

(** [HEnvironment::SetValueAt]: writes the slot in place; the index is
    asserted to be below [length()]. *)
Definition SetValueAt (e : EnvRef) (index : nat) (v : HValueId) : M unit :=
  env <- environment e ;;
  DCHECK (Nat.ltb index (length env)) ;;
  modify (with_store (fun g =>
    store_environments
      (replace_at (environments g) e (replace_at env index v)) g)).

Definition UpdateEnvironment (b : BlockId) (e : EnvRef) : M unit :=
  modify (with_store (store_last_environment b (Some e))).

(** *** Tagging constants *)

Section Tagging.

(** The tagging configuration: whether Smi values are 32 bits wide. *)
Variable SmiValuesAre32Bits : bool.

Definition SmiValuesAre31Bits : bool := negb SmiValuesAre32Bits.

(** Modelled from the spec: [kSmiShift] is declared with the object
    model, outside this file.  A small integer is "shifted into the
    high bits with a zero low-bit tag": past the low half of the word
    when Smi values are 32 bits, past the one tag bit otherwise. *)
Definition kSmiShift : Z := if SmiValuesAre32Bits then 32 else 1.

End Tagging.

(** [DoParameter]'s [while (--index + num_parameters > 0) ++it;]: the
    position [it] ends at, counted from [arg_begin()]. *)
Equations? advance (index num_parameters : Z) (it : nat) : nat
  by wf (Z.to_nat (index + num_parameters)) lt :=
  advance index num_parameters it
    with Z_gt_dec (index - 1 + num_parameters) 0 => {
    | left _ := advance (index - 1) num_parameters (S it);
    | right _ := it }.
Proof. lia. Qed.

(* ------------------------------------------------------------------ *)
(** ** Materialization cache and per-opcode handlers *)

Section Handlers.

Variable SmiValuesAre32Bits : bool.
Variable graph : HGraph.

(** The dispatcher the value overload of [Use] re-enters; the knot is
    tied by [VisitInstruction] below. *)
Variable Visit : HValueId -> M unit.

Definition is_null {A} (p : option A) : bool :=
  match p with Some _ => false | None => true end.

(** [LLVMChunkBuilder::Use], the overload for values. *)
Definition Use (value : HValueId) : M LValue :=
  have <- get (fun s => llvm_value (store s) value) ;;
  when (EmitAtUses (value_at graph value) && is_null have)
       (Visit value) ;;
  v <- get (fun s => llvm_value (store s) value) ;;
  DCHECK (negb (is_null v)) ;;
  deref v.

Definition SmiToInteger32 (value : HValueId) : M (option LValue) :=
  if SmiValuesAre32Bits then
    v <- Use value ;;
    res <- CreateLShr v (kSmiShift SmiValuesAre32Bits) ;;
    ret (Some res)
  else
    DCHECK (SmiValuesAre31Bits SmiValuesAre32Bits) ;;
    UNIMPLEMENTED ;;
    ret None.

Definition Integer32ToSmi (value : HValueId) : M LValue :=
  v <- Use value ;;
  CreateShl v (kSmiShift SmiValuesAre32Bits).

Definition DoBlockEntry (instr : HValueId) : M unit :=
  _ <- UseBlock (block (value_at graph instr)) ;;
  ret tt.

Definition DoContext (instr : HValueId) : M unit :=
  if HasNoUses (value_at graph instr) then ret tt
  else when (IsStub (info graph)) UNIMPLEMENTED.

(** The arguments are walked from [function_->arg_begin()]. *)
Definition DoParameter (instr : HValueId) (index : Z) : M unit :=
  let num_parameters := num_parameters (info graph) + 3 in
  f <- get (fun s => function_ (builder s)) ;;
  _ <- deref f ;;
  let it := advance (- index) num_parameters 0 in
  set_llvm_value instr (Some (Argument it)).

Definition DoArgumentsObject (instr : HValueId) : M unit := ret tt.

Definition DoSimulate (instr : HValueId)
  (ReplayEnvironment : HEnvironment -> HEnvironment) : M unit :=
  cb <- get (fun s => current_block_ (builder s)) ;;
  b <- deref cb ;;
  le <- get (fun s => last_environment (store s) b) ;;
  e <- deref le ;;
  env <- environment e ;;
  modify (with_store (fun g =>
    store_environments
      (replace_at (environments g) e (ReplayEnvironment env)) g)).

Definition DoStackCheck (instr : HValueId) : M unit := ret tt.

Definition DoConstant (instr : HValueId) (Integer32Value : Z)
  (handle_IsSmi : bool) (smi_word : Z) : M unit :=
  let r := representation (value_at graph instr) in
  if IsSmi r then
    value <- getInt64
               (Z.shiftl Integer32Value (kSmiShift SmiValuesAre32Bits)) ;;
    set_llvm_value instr (Some value)
  else if IsInteger32 r then
    value <- getInt64 Integer32Value ;;
    set_llvm_value instr (Some value)
  else if IsDouble r then UNIMPLEMENTED
  else if IsExternal r then UNIMPLEMENTED
  else if IsTagged r then
    if handle_IsSmi then
      value <- getInt64 smi_word ;;
      set_llvm_value instr (Some value)
    else UNIMPLEMENTED
  else UNREACHABLE.

Definition DoReturn (instr : HValueId) (value : HValueId)
  (parameter_count : option HValueId) : M unit :=
  when (IsStub (info graph)) UNIMPLEMENTED ;;
  when (saves_caller_doubles (info graph)) UNIMPLEMENTED ;;
  DCHECK (negb (IsStub (info graph))) ;;
  DCHECK (negb (is_null parameter_count)) ;;
  pc <- deref parameter_count ;;
  if IsConstant (value_at graph pc) then
    ret_val <- Use value ;;
    _ <- CreateRet ret_val ;;
    ret tt
  else UNIMPLEMENTED.

(** [llvm::outs() << "Adding module " << *(module_.get())]: the module
    is dereferenced; what is printed is not part of the state. *)
Definition print_module : M unit :=
  m <- get (fun s => module_ (builder s)) ;;
  _ <- deref m ;;
  ret tt.

(** The operands of a call are evaluated left to right here. *)
Definition DoAdd (instr left right : HValueId) : M unit :=
  let r := representation (value_at graph instr) in
  if IsInteger32 r || IsSmi r then
    DCHECK (Representation_Equals
              (representation (value_at graph left)) r) ;;
    DCHECK (Representation_Equals
              (representation (value_at graph right)) r) ;;
    l <- Use left ;;
    r <- Use right ;;
    Add <- CreateAdd l r ;;
    set_llvm_value instr (Some Add) ;;
    print_module
  else UNIMPLEMENTED.

Definition DoMul (instr left right : HValueId) : M unit :=
  let r := representation (value_at graph instr) in
  if IsInteger32 r || IsSmi r then
    DCHECK (Representation_Equals
              (representation (value_at graph left)) r) ;;
    DCHECK (Representation_Equals
              (representation (value_at graph right)) r) ;;
    l <- get (fun s => llvm_value (store s) left) ;;
    CHECK (negb (is_null l)) ;;
    r <- get (fun s => llvm_value (store s) right) ;;
    CHECK (negb (is_null r)) ;;
    l <- deref l ;;
    r <- deref r ;;
    Mul <- CreateMul l r ;;
    set_llvm_value instr (Some Mul) ;;
    print_module
  else UNIMPLEMENTED.

Definition DoSub (instr left right : HValueId) : M unit :=
  let r := representation (value_at graph instr) in
  if IsInteger32 r || IsSmi r then
    DCHECK (Representation_Equals
              (representation (value_at graph left)) r) ;;
    DCHECK (Representation_Equals
              (representation (value_at graph right)) r) ;;
    l <- get (fun s => llvm_value (store s) left) ;;
    CHECK (negb (is_null l)) ;;
    r <- get (fun s => llvm_value (store s) right) ;;
    CHECK (negb (is_null r)) ;;
    l <- deref l ;;
    r <- deref r ;;
    Sub <- CreateSub l r ;;
    set_llvm_value instr (Some Sub) ;;
    print_module
  else UNIMPLEMENTED.

Definition DoChange (instr val : HValueId) (from to : Representation)
  : M unit :=
  let after_smi (from : Representation) : M unit :=
    if IsTagged from then
      if IsDouble to then UNIMPLEMENTED
      else if IsSmi to then
        v <- Use val ;;
        set_llvm_value instr (Some v)
      else
        DCHECK (IsInteger32 to) ;;
        if type_IsSmi (value_at graph val)
           || IsSmi (representation (value_at graph val)) then
          v <- SmiToInteger32 val ;;
          set_llvm_value instr v
        else
          v <- SmiToInteger32 val ;;
          set_llvm_value instr v
    else if IsDouble from then UNIMPLEMENTED
    else if IsInteger32 from then
      if IsTagged to then
        if negb (kCanOverflow (value_at graph instr)) then
          v <- Integer32ToSmi val ;;
          set_llvm_value instr (Some v)
        else UNIMPLEMENTED
      else if IsSmi to then UNIMPLEMENTED
      else
        DCHECK (IsDouble to) ;;
        UNIMPLEMENTED
    else ret tt in
  if IsSmi from then
    if IsTagged to then
      v <- Use val ;;
      set_llvm_value instr (Some v)
    else after_smi kTagged
  else after_smi from.

Definition DoCompareNumericAndBranch (instr : HValueId) (token : Token)
  (left right : HValueId) (SuccessorAt0 SuccessorAt1 : BlockId)
  : M unit :=
  let r := representation (value_at graph instr) in
  DCHECK (Representation_Equals
            (representation (value_at graph left)) r) ;;
  DCHECK (Representation_Equals
            (representation (value_at graph right)) r) ;;
  let is_unsigned := IsDouble r
                     || kUint32 (value_at graph left)
                     || kUint32 (value_at graph right) in
  pred <- lift (TokenToPredicate token is_unsigned) ;;
  if IsSmi r then UNIMPLEMENTED
  else if IsInteger32 r then
    l <- Use left ;;
    r <- Use right ;;
    compare <- CreateICmp pred l r ;;
    t <- UseBlock SuccessorAt0 ;;
    f <- UseBlock SuccessorAt1 ;;
    branch <- CreateCondBr compare t f ;;
    set_llvm_value instr (Some branch)
  else
    DCHECK (IsDouble r) ;;
    UNIMPLEMENTED.

(** Modelled from the spec: [HInstruction::CompileToLLVM] is defined
    with the instruction classes, outside this file; it must "dispatch
    by opcode to a dedicated handler".  Every opcode in [StubOpcode]
    has the handler [UNIMPLEMENTED();]. *)
Definition CompileToLLVM (instr : HValueId) : M unit :=
  match operation (value_at graph instr) with
  | HBlockEntry => DoBlockEntry instr
  | HContext => DoContext instr
  | HParameter index => DoParameter instr index
  | HArgumentsObject => DoArgumentsObject instr
  | HSimulate replay => DoSimulate instr replay
  | HStackCheck => DoStackCheck instr
  | HConstant i is_smi w => DoConstant instr i is_smi w
  | HReturn value parameter_count => DoReturn instr value parameter_count
  | HAdd l r => DoAdd instr l r
  | HSub l r => DoSub instr l r
  | HMul l r => DoMul instr l r
  | HChange value from to => DoChange instr value from to
  | HCompareNumericAndBranch token l r s0 s1 =>
      DoCompareNumericAndBranch instr token l r s0 s1
  | HStub _ => UNIMPLEMENTED
  end.

(** [LLVMChunkBuilder::VisitInstruction], with [Visit] for the visits
    it starts through [Use]. *)
Definition VisitInstruction_body (current : HValueId) : M unit :=
  old_current <- get (fun s => current_instruction_ (builder s)) ;;
  modify (with_builder (set_current_instruction_ (Some current))) ;;
  (let c := value_at graph current in
   if CanReplaceWithDummyUses c then
     match operands c with
     | [] => UNIMPLEMENTED
     | first :: others =>
         DCHECK (negb (IsControlInstruction (value_at graph first))) ;;
         UNIMPLEMENTED ;;
         for_each others (fun operand =>
           if IsControlInstruction (value_at graph operand) then ret tt
           else UNIMPLEMENTED)
     end
   else
     match IsControlInstruction c, KnownSuccessorBlock c with
     | true, Some (Some successor) =>
         bb <- UseBlock successor ;;
         _ <- CreateBr bb ;;
         ret tt
     | _, _ => CompileToLLVM current
     end) ;;
  modify (with_builder (set_current_instruction_ old_current)).

End Handlers.

(** [VisitInstruction], re-entered at most [depth] times through [Use]. *)
Fixpoint VisitInstruction (SmiValuesAre32Bits : bool) (graph : HGraph)
  (depth : nat) (current : HValueId) : M unit :=
  match depth with
  | O => fun _ => Timeout
  | S depth' =>
      VisitInstruction_body SmiValuesAre32Bits graph
        (VisitInstruction SmiValuesAre32Bits graph depth') current
  end.

(* ------------------------------------------------------------------ *)
(** ** Environment/Join State Tracker and the block driver *)

Section Driver.

Variable SmiValuesAre32Bits : bool.
Variable graph : HGraph.

(** How deep [Use] may re-enter the dispatcher from one instruction of
    a block. *)
Variable depth : nat.

Definition set_builder_argument_count (n : Z) : M unit :=
  modify (with_builder (set_argument_count_ n)).

(** The first part of [DoBasicBlock]: the three-way choice of the
    block's environment and of [argument_count_]. *)
Definition DoBasicBlock_environment (block : BlockId) : M unit :=
  let b := block_at graph block in
  if IsStartBlock b then
    UpdateEnvironment block (start_environment graph) ;;
    set_builder_argument_count 0
  else if Nat.eqb (length (predecessors b)) 1 then
    DCHECK (Nat.eqb (length (phis b)) 0) ;;
    pred <- deref (nth_error (predecessors b) 0) ;;
    le <- get (fun s => last_environment (store s) pred) ;;
    DCHECK (negb (is_null le)) ;;
    last <- deref le ;;
    last <-
      match SecondSuccessor (block_at graph pred) with
      | None =>
          DCHECK (match FirstSuccessor (block_at graph pred) with
                  | Some first => Nat.eqb first block
                  | None => false
                  end) ;;
          ret last
      | Some second =>
          first <- deref (FirstSuccessor (block_at graph pred)) ;;
          if Nat.ltb block first || Nat.ltb block second
          then HEnvironment_Copy last
          else ret last
      end ;;
    UpdateEnvironment block last ;;
    count <- get (fun s => argument_count (store s) pred) ;;
    DCHECK (count >=? 0) ;;
    set_builder_argument_count count
  else
    pred <- deref (nth_error (predecessors b) 0) ;;
    le <- get (fun s => last_environment (store s) pred) ;;
    last <- deref le ;;
    for_each (phis b) (fun phi =>
      match merged_index phi with
      | Some index => SetValueAt last index (phi_value phi)
      | None => ret tt
      end) ;;
    for_each (deleted_phis b) (fun deleted =>
      env <- environment last ;;
      if Nat.ltb deleted (length env)
      then SetValueAt last deleted (GetConstantUndefined graph)
      else ret tt) ;;
    UpdateEnvironment block last ;;
    count <- get (fun s => argument_count (store s) pred) ;;
    set_builder_argument_count count.

(** The [while (current != NULL && !is_aborted())] loop over the
    block's instructions. *)
Fixpoint DoBasicBlock_instructions (chain : list HValueId) : M unit :=
  match chain with
  | [] => ret tt
  | current :: rest =>
      aborted <- get is_aborted ;;
      if aborted then ret tt
      else
        when (negb (EmitAtUses (value_at graph current)))
             (VisitInstruction SmiValuesAre32Bits graph depth current) ;;
        DoBasicBlock_instructions rest
  end.

Definition DoBasicBlock (block : BlockId) (next_block : option BlockId)
  : M unit :=
  building <- get is_building ;;
  DCHECK building ;;
  bb <- UseBlock block ;;
  modify (with_builder (set_llvm_ir_builder_ (Some bb))) ;;
  modify (with_builder (set_current_block_ (Some block))) ;;
  modify (with_builder (set_next_block_ next_block)) ;;
  DoBasicBlock_environment block ;;
  DoBasicBlock_instructions (instructions (block_at graph block)) ;;
  count <- get (fun s => argument_count_ (builder s)) ;;
  modify (with_store (store_argument_count block count)) ;;
  modify (with_builder (set_next_block_ None)) ;;
  modify (with_builder (set_current_block_ None)).

(** *** Function/Module Assembly *)

(** [std::vector<llvm::Type*> params(num_parameters, nullptr)] followed
    by the loop that stores [getInt64Ty] at every index. *)
Definition params (num_parameters : Z) : list (option LType) :=
  fold_left (fun params i => replace_at params i (Some Int64Ty))
    (seq 0 (Z.to_nat num_parameters))
    (repeat None (Z.to_nat num_parameters)).

(** [llvm::FunctionType::get]: every parameter type must be there. *)
Fixpoint the_types (l : list (option LType)) : option (list LType) :=
  match l with
  | [] => Some []
  | Some t :: rest =>
      match the_types rest with
      | Some ts => Some (t :: ts)
      | None => None
      end
  | None :: _ => None
  end.

Definition FunctionType_get (result : LType) (ps : list (option LType))
  : M FunctionType :=
  ts <- deref (the_types ps) ;;
  ret (mkFunctionType result ts).

(** The signature [Build] gives the function. *)
Definition Build_function_type : M FunctionType :=
  let num_parameters := num_parameters (info graph) + 3 in
  FunctionType_get Int64Ty (params num_parameters).

(** Modelled from the spec: [LLVMGranularity] is defined outside this
    file.  [CreateModule] makes "a fresh code-generation module" whose
    name is the "unique identifier" later extracted from it; the
    session numbers its modules in order of creation. *)
Definition CreateModule : M nat :=
  n <- get (fun s => created_modules (target s)) ;;
  modify (with_target (fun t =>
    mkTarget (created_blocks t) (inserted t)
             (S (created_modules t)) (added_modules t))) ;;
  ret n.

(** Modelled from the spec: [LLVMGranularity::AddModule] "registers the
    finished unit with the global code-generation session keyed by that
    identifier". *)
Definition AddModule (m : nat) : M unit :=
  modify (with_target (fun t =>
    mkTarget (created_blocks t) (inserted t)
             (created_modules t) (added_modules t ++ [m]))).

(** The block loop of [Build]: [true] when it left through
    [if (is_aborted()) return NULL;]. *)
Fixpoint Build_blocks (bs : list BlockId) : M bool :=
  match bs with
  | [] => ret false
  | b :: rest =>
      DoBasicBlock b (hd_error rest) ;;
      aborted <- get is_aborted ;;
      if aborted then ret true else Build_blocks rest
  end.

(** [Build] up to the block loop: the chunk, the module and the function
    shell. *)
Definition Build_prologue : M unit :=
  modify (with_builder (set_chunk_ (Some (mkLLVMChunk None)))) ;;
  m <- CreateModule ;;
  modify (with_builder (set_module_ (Some m))) ;;
  modify (with_builder (set_status_ BUILDING)) ;;
  function_type <- Build_function_type ;;
  modify (with_builder
            (set_function_ (Some (mkLFunction function_type C)))) ;;
  modify (with_builder
            (set_function_ (Some (mkLFunction function_type X86_64_V8)))).

Definition Build : M (option LLVMChunk) :=
  Build_prologue ;;
  returned_null <- Build_blocks (blocks graph) ;;
  if returned_null then ret None
  else
    module <- get (fun s => module_ (builder s)) ;;
    DCHECK (negb (is_null module)) ;;
    id <- deref module ;;
    modify (with_builder (set_chunk_ (Some (mkLLVMChunk (Some id))))) ;;
    AddModule id ;;
    modify (with_builder (set_module_ None)) ;;
    modify (with_builder (set_status_ DONE)) ;;
    get (fun s => chunk_ (builder s)).

(** A builder as its constructor leaves it. *)
Definition new_builder : Builder :=
  mkBuilder UNUSED None None None 0 None None None None.

(** [LLVMChunk::NewChunk]: a fresh builder on the graph, then [Build]. *)
Definition NewChunk : M (option LLVMChunk) :=
  modify (with_builder (fun _ => new_builder)) ;;
  chunk <- Build ;;
  match chunk with
  | None => ret None
  | Some c => ret (Some c)
  end.

End Driver.

(* ------------------------------------------------------------------ *)
(** ** Vocabulary of the properties *)




(** [current_instruction_] is the same. *)
Definition same_current_instruction (s s' : State) : Prop :=
  current_instruction_ (builder s') = current_instruction_ (builder s).

(** The state with the environment object [e] holding the slots [env]. *)
Definition set_environment (e : EnvRef) (env : HEnvironment) (s : State)
  : State :=
  with_store
    (store_environments (replace_at (environments (store s)) e env)) s.

(** An environment after the phis' values are written to the slots the
    phis were merged into, in the order of the list. *)
Definition with_phis (ps : list HPhi) (env : HEnvironment) : HEnvironment :=
  fold_left (fun env phi =>
               match merged_index phi with
               | Some index => replace_at env index (phi_value phi)
               | None => env
               end) ps env.

(** An environment after [undefined] is written to the slots of the list
    that the environment has. *)
Definition with_deleted_phis (deleted : list nat) (undefined : HValueId)
  (env : HEnvironment) : HEnvironment :=
  fold_left (fun env d =>
               if Nat.ltb d (length env) then replace_at env d undefined
               else env) deleted env.

(* ------------------------------------------------------------------ *)
(** ** Sample graphs *)

Local Open Scope nat_scope.

(** An instruction with every flag off. *)
Definition instruction (op : HOperation) (r : Representation)
  (b : BlockId) : HValue :=
  mkHValue op r false false false false false false false None [] b.

(** The same instruction, generated lazily at its uses. *)
Definition at_uses (v : HValue) : HValue :=
  mkHValue (operation v) (representation v) (type_IsSmi v) (kCanOverflow v)
    (kUint32 v) true (HasNoUses v) (CanReplaceWithDummyUses v)
    (IsControlInstruction v) (KnownSuccessorBlock v) (operands v) (block v).

Definition no_block : HBasicBlock :=
  mkHBasicBlock false [] [] [] [] [].

(** The state a compilation starts from: nothing materialized, one
    environment object (the start environment) with the given slots. *)
Definition initial_state (start : HEnvironment) : State :=
  mkState (mkBuilder UNUSED None None None 0%Z None None None None)
          (mkGraphStore (fun _ => None) (fun _ => None) (fun _ => None)
                        (fun _ => 0%Z) [start])
          (mkTarget 0 [] 0 []).

(** [function inc(a) { return a + 1; }] with [a] a small integer: one
    block; the constants are emitted at their uses. *)
Definition inc_value (v : HValueId) : HValue :=
  match v with
  | 0 => instruction HBlockEntry kNone 0
  | 1 => instruction (HParameter 0%Z) kTagged 0
  | 2 => instruction (HParameter 1%Z) kTagged 0
  | 3 => at_uses (instruction (HConstant 1%Z false 0%Z) kInteger32 0)
  | 4 => instruction (HChange 2 kTagged kInteger32) kInteger32 0
  | 5 => instruction (HAdd 4 3) kInteger32 0
  | 6 => instruction (HChange 5 kInteger32 kTagged) kTagged 0
  | 7 => at_uses (instruction (HConstant 1%Z false 0%Z) kInteger32 0)
  | 8 => instruction (HReturn 6 (Some 7)) kNone 0
  | _ => instruction HStackCheck kNone 0
  end.

Definition inc_graph : HGraph :=
  mkHGraph (mkCompilationInfo 1%Z false false) [0]
    (fun b => match b with
              | 0 => mkHBasicBlock true [] [] []
                           [0; 1; 2; 3; 4; 5; 6; 7; 8] []
              | _ => no_block
              end)
    inc_value 0 9.

(** The unsigned number of the word an instruction's value evaluates
    to, after a run. *)
Definition word_after {A} (run : Result (A * State)) (args : nat -> Z)
  (v : HValueId) : option Z :=
  match run with
  | Done (_, s) =>
      match llvm_value (store s) v with
      | Some x => eval args x
      | None => None
      end
  | _ => None
  end.

(** The outcome of a run without the state. *)
Definition outcome {A} (run : Result (A * State)) : Result A :=
  match run with
  | Done (a, _) => Done a
  | Fatal f => Fatal f
  | Timeout => Timeout
  end.


(** In the middle of the block of [inc_graph]: the builder is at
    instruction 8, inserting into LLVM block 0 of module 0; the untagged
    parameter (instruction 4) has its value, the constants have none
    yet. *)
Definition visiting_state : State :=
  with_store (store_llvm_value 4 (Some (LShrInst (Argument 2) 32%Z)))
    (with_builder
       (fun _ => mkBuilder BUILDING (Some 8) (Some 0) None 0%Z (Some 0)
                           None (Some 0) None)
       (initial_state [1; 2])).

(** The same, with the function shell [Build] makes for one declared
    parameter. *)
Definition entered_state : State :=
  with_builder
    (set_function_
       (Some (mkLFunction
                (mkFunctionType Int64Ty [Int64Ty; Int64Ty; Int64Ty; Int64Ty])
                X86_64_V8)))
    visiting_state.

(** [-1] as an Integer32 constant (instruction 0), changed to tagged
    (instruction 1, which cannot overflow) and back to Integer32
    (instruction 2). *)
Definition round_trip_graph : HGraph :=
  mkHGraph (mkCompilationInfo 0%Z false false) [0]
    (fun b => match b with
              | 0 => mkHBasicBlock true [] [] [] [0; 1; 2] []
              | _ => no_block
              end)
    (fun v => match v with
              | 0 => at_uses (instruction (HConstant (-1)%Z false 0%Z)
                                          kInteger32 0)
              | 1 => instruction (HChange 0 kInteger32 kTagged) kTagged 0
              | 2 => instruction (HChange 1 kTagged kInteger32) kInteger32 0
              | _ => instruction HStackCheck kNone 0
              end)
    0 9.

(** A jump to a known successor: [VisitInstruction] emits the branch
    itself and never reaches the (missing) handler. *)
Definition jump (successor b : BlockId) : HValue :=
  mkHValue (HStub kGoto) kNone false false false false false false true
           (Some (Some successor)) [] b.

(** A two-way branch on a comparison of two Integer32 constants. *)
Definition compare_and_branch (left right : HValueId)
  (if_true if_false b : BlockId) : HValue :=
  mkHValue (HCompareNumericAndBranch LT left right if_true if_false)
           kInteger32 false false false false false false true None
           [left; right] b.

(** A diamond: block 0 branches to blocks 1 and 2, which both jump to
    block 3.  Block 3 has one phi, merged into slot 0, and the deleted
    phis 1 and 5; the environments have three slots. *)
Definition diamond_graph : HGraph :=
  mkHGraph (mkCompilationInfo 0%Z false false) [0; 1; 2; 3]
    (fun b => match b with
              | 0 => mkHBasicBlock true [] [] [] [0; 1; 2; 3] [1; 2]
              | 1 => mkHBasicBlock false [0] [] [] [4; 5] [3]
              | 2 => mkHBasicBlock false [0] [] [] [6; 7] [3]
              | 3 => mkHBasicBlock false [1; 2] [mkHPhi 10 (Some 0)] [1; 5]
                                   [8; 9] []
              | _ => no_block
              end)
    (fun v => match v with
              | 0 => instruction HBlockEntry kNone 0
              | 1 => at_uses (instruction (HConstant 1%Z false 0%Z)
                                          kInteger32 0)
              | 2 => at_uses (instruction (HConstant 2%Z false 0%Z)
                                          kInteger32 0)
              | 3 => compare_and_branch 1 2 1 2 0
              | 4 => instruction HBlockEntry kNone 1
              | 5 => jump 3 1
              | 6 => instruction HBlockEntry kNone 2
              | 7 => jump 3 2
              | 8 => instruction HBlockEntry kNone 3
              | 9 => instruction (HReturn 1 (Some 2)) kNone 3
              | _ => instruction HStackCheck kNone 0
              end)
    0 11.

(** Its compilation, from a start environment with the slots 20, 21, 22. *)
Definition diamond_run : Result (option LLVMChunk * State) :=
  NewChunk true diamond_graph 3 (initial_state [20; 21; 22]).

(** What a run left in a block's [last_environment()]: the reference and
    the slots of the object it refers to. *)
Definition environment_after {A} (run : Result (A * State)) (b : BlockId)
  : option (EnvRef * HEnvironment) :=
  match run with
  | Done (_, s) =>
      match last_environment (store s) b with
      | Some e =>
          match nth_error (environments (store s)) e with
          | Some env => Some (e, env)
          | None => None
          end
      | None => None
      end
  | _ => None
  end.

(** [inc_graph] with a subtraction (instruction 6) and a multiplication
    (instruction 7) of the same operands as the addition (instruction 5):
    the untagged parameter and the constant 1, emitted at its uses. *)
Definition arithmetic_graph : HGraph :=
  mkHGraph (mkCompilationInfo 1%Z false false) [0]
    (fun b => match b with
              | 0 => mkHBasicBlock true [] [] [] [0; 1; 2; 3; 4; 5; 6; 7] []
              | _ => no_block
              end)
    (fun v => match v with
              | 6 => instruction (HSub 4 3) kInteger32 0
              | 7 => instruction (HMul 4 3) kInteger32 0
              | _ => inc_value v
              end)
    0 9.



Local Open Scope Z_scope.

(* ------------------------------------------------------------------ *)
(** ** Further vocabulary *)

(** Every native block handle a Hydrogen block holds was created in this
    function. *)
Definition handles_allocated (s : State) : Prop :=
  forall b bb,
    llvm_basic_block (store s) b = Some bb ->
    (bb < created_blocks (target s))%nat.

(** No two Hydrogen blocks hold the same native block. *)
Definition handles_distinct (s : State) : Prop :=
  forall b1 b2 bb,
    llvm_basic_block (store s) b1 = Some bb ->
    llvm_basic_block (store s) b2 = Some bb ->
    b1 = b2.

(** The instructions of a chain that are not generated lazily. *)
Definition eager (graph : HGraph) (chain : list HValueId) : list HValueId :=
  filter (fun i => negb (EmitAtUses (value_at graph i))) chain.

(** What no visit of an instruction changes: the builder's block
    bookkeeping, argument count and function shell, the environments
    the blocks are bound to, the blocks' outgoing argument counts, and
    the session's modules. *)
Definition untouched_by_visit (s s' : State) : Prop :=
  argument_count_ (builder s') = argument_count_ (builder s) /\
  current_block_ (builder s') = current_block_ (builder s) /\
  next_block_ (builder s') = next_block_ (builder s) /\
  llvm_ir_builder_ (builder s') = llvm_ir_builder_ (builder s) /\
  function_ (builder s') = function_ (builder s) /\
  module_ (builder s') = module_ (builder s) /\
  chunk_ (builder s') = chunk_ (builder s) /\
  last_environment (store s') = last_environment (store s) /\
  argument_count (store s') = argument_count (store s) /\
  created_modules (target s') = created_modules (target s) /\
  added_modules (target s') = added_modules (target s).

(** Only the status may differ, and an aborted unit stays aborted. *)
Definition at_most_aborted (s s' : State) : Prop :=
  store s' = store s /\ target s' = target s /\
  (is_aborted s = true -> is_aborted s' = true).

(** An instruction that can be replaced with dummy uses of the two
    operands 1 and 2 (instruction 0), in a graph of one block. *)
Definition dummy_use_graph : HGraph :=
  mkHGraph (mkCompilationInfo 0 false false) [0%nat]
    (fun b => match b with
              | 0%nat => mkHBasicBlock true [] [] [] [0%nat] []
              | _ => no_block
              end)
    (fun v => match v with
              | 0%nat => mkHValue (HStub kDummyUse) kNone false false false
                                  false false true false None
                                  [1%nat; 2%nat] 0%nat
              | _ => instruction HStackCheck kNone 0%nat
              end)
    0%nat 9%nat.

(** What the environment propagation of a block does not change: all
    but the environments, the blocks' environment bindings and
    [argument_count_]. *)
Definition untouched_by_propagation (s s' : State) : Prop :=
  status_ (builder s') = status_ (builder s) /\
  current_block_ (builder s') = current_block_ (builder s) /\
  next_block_ (builder s') = next_block_ (builder s) /\
  llvm_ir_builder_ (builder s') = llvm_ir_builder_ (builder s) /\
  function_ (builder s') = function_ (builder s) /\
  llvm_value (store s') = llvm_value (store s) /\
  llvm_basic_block (store s') = llvm_basic_block (store s) /\
  argument_count (store s') = argument_count (store s) /\
  target s' = target s.

(** The unit's module and chunk and the session's modules are the
    same. *)
Definition same_session (s s' : State) : Prop :=
  module_ (builder s') = module_ (builder s) /\
  chunk_ (builder s') = chunk_ (builder s) /\
  created_modules (target s') = created_modules (target s) /\
  added_modules (target s') = added_modules (target s).

(** [DoBasicBlock] from its instruction loop on: the loop and the closing
    bookkeeping. *)
Definition DoBasicBlock_rest (SmiValuesAre32Bits : bool) (graph : HGraph)
  (depth : nat) (block : BlockId) : M unit :=
  DoBasicBlock_instructions SmiValuesAre32Bits graph depth
    (instructions (block_at graph block)) ;;
  count <- get (fun s => argument_count_ (builder s)) ;;
  modify (with_store (store_argument_count block count)) ;;
  modify (with_builder (set_next_block_ None)) ;;
  modify (with_builder (set_current_block_ None)).




(* ================================================================== *)
(** * Properties *)

Unset Implicit Arguments.

(* ------------------------------------------------------------------ *)
(** ** Predicate classification *)

(** C5, the counterexample: the signed and the unsigned [EQ] are two of the
    twelve combinations and are classified alike, as [ICMP_EQ]; so the
    twelve predicates are not pairwise distinct. *)
Lemma TokenToPredicate_EQ_signedness_collide :
  In (EQ, false) combinations /\ In (EQ, true) combinations /\
  (EQ, false) <> (EQ, true) /\
  TokenToPredicate EQ false = Done ICMP_EQ /\
  TokenToPredicate EQ true = Done ICMP_EQ.
Proof.
  repeat split; try (simpl; tauto); discriminate.
Qed.

(** C5, as the code has it: each of the twelve combinations of a relational
    operator with a signedness is classified, never as the error
    predicate; two combinations are classified alike exactly when they
    have the same operator and either the same signedness or the operator
    is [EQ] or [NE], which ignore the flag, so that ten predicates come
    out; [IN] and [INSTANCEOF] are fatal. *)
Theorem TokenToPredicate_classification :
  length combinations = 12%nat /\
  Forall (fun c => exists p, classify c = Done p /\
                             Predicate_eqb p BAD_FCMP_PREDICATE = false)
         combinations /\
  Forall (fun c1 => Forall (fun c2 =>
            classify c1 = classify c2 <->
            (fst c1 = fst c2 /\
             (snd c1 = snd c2 \/ fst c1 = EQ \/ fst c1 = NE)))
          combinations) combinations /\
  length (nodup Predicate_eq_dec classified) = 10%nat /\
  Forall (fun is_unsigned =>
            TokenToPredicate IN is_unsigned = Fatal Unreachable /\
            TokenToPredicate INSTANCEOF is_unsigned = Fatal Unreachable)
         [false; true].
Proof.
  split; [reflexivity |].
  split.
  { unfold combinations, relational_operators; simpl.
    repeat (apply Forall_cons || apply Forall_nil);
      eexists; split; reflexivity. }
  split.
  { unfold combinations, relational_operators; simpl.
    repeat (apply Forall_cons || apply Forall_nil);
      simpl; (split;
      [ intros H;
        first [ discriminate H
              | split;
                [ reflexivity
                | first [ left; reflexivity
                        | right; left; reflexivity
                        | right; right; reflexivity ] ] ]
      | intros [E1 E2];
        first [ discriminate E1
              | reflexivity
              | destruct E2 as [E | [E | E]]; discriminate E ] ]). }
  split; [reflexivity |].
  repeat (apply Forall_cons || apply Forall_nil); split; reflexivity.
Qed.

(* ------------------------------------------------------------------ *)
(** ** Reasoning about builder computations *)

Lemma bind_Done {A B} (m : M A) (k : A -> M B) s b s' :
  bind m k s = Done (b, s') ->
  exists a s1, m s = Done (a, s1) /\ k a s1 = Done (b, s').
Proof.
  unfold bind. destruct (m s) as [[a s1] | f |]; try discriminate.
  intros H. exists a, s1. split; [reflexivity | exact H].
Qed.

Lemma bind_eq {A B} (m : M A) (k : A -> M B) s a s1 :
  m s = Done (a, s1) -> bind m k s = k a s1.
Proof. unfold bind. intros ->. reflexivity. Qed.

(** *** Frame conditions

    [keeps R m]: every finished run of [m] relates the state it started
    in to the state it ended in. *)
Section Frames.

Variable R : State -> State -> Prop.
Hypothesis R_refl : forall s, R s s.
Hypothesis R_trans : forall a b c, R a b -> R b c -> R a c.

Definition keeps {A} (m : M A) : Prop :=
  forall s a s', m s = Done (a, s') -> R s s'.

Lemma keeps_ret {A} (a : A) : keeps (ret a).
Proof. intros s a' s' H. inversion H; subst. apply R_refl. Qed.

Lemma keeps_die {A} (f : Fault) : keeps (@die A f).
Proof. intros s a s' H. discriminate H. Qed.

Lemma keeps_get {A} (f : State -> A) : keeps (get f).
Proof. intros s a s' H. inversion H; subst. apply R_refl. Qed.

Lemma keeps_lift {A} (r : Result A) : keeps (lift r).
Proof.
  intros s a s' H. destruct r; inversion H; subst. apply R_refl.
Qed.

Lemma keeps_deref {A} (p : option A) : keeps (deref p).
Proof. destruct p; [apply keeps_ret | apply keeps_die]. Qed.

Lemma keeps_CHECK c : keeps (CHECK c).
Proof. destruct c; [apply keeps_ret | apply keeps_die]. Qed.

Lemma keeps_DCHECK c : keeps (DCHECK c).
Proof. destruct c; [apply keeps_ret | apply keeps_die]. Qed.

Lemma keeps_modify f : (forall s, R s (f s)) -> keeps (modify f).
Proof. intros Hf s a s' H. inversion H; subst. apply Hf. Qed.

Lemma keeps_bind {A B} (m : M A) (k : A -> M B) :
  keeps m -> (forall a, keeps (k a)) -> keeps (bind m k).
Proof.
  intros Hm Hk s b s' H.
  apply bind_Done in H as (a & s1 & H1 & H2).
  eapply R_trans; [eapply Hm; eassumption | eapply Hk; eassumption].
Qed.

Lemma keeps_when c m : keeps m -> keeps (when c m).
Proof. intros Hm. destruct c; [exact Hm | apply keeps_ret]. Qed.

Lemma keeps_for_each {A} (l : list A) body :
  (forall x, keeps (body x)) -> keeps (for_each l body).
Proof.
  intros Hb. induction l as [| x l IH]; simpl.
  - apply keeps_ret.
  - apply keeps_bind; [apply Hb | intros _; exact IH].
Qed.

End Frames.

(** One step of a frame proof: split the computation at its head. *)
Ltac keeps_step :=
  match goal with
  | |- keeps _ (bind _ _) =>
      apply keeps_bind; [solve [assumption] .. | | intros ?]
  | |- keeps _ (ret _) => apply keeps_ret; assumption
  | |- keeps _ (die _) => apply keeps_die
  | |- keeps _ UNREACHABLE => apply keeps_die
  | |- keeps _ (get _) => apply keeps_get; assumption
  | |- keeps _ (lift _) => apply keeps_lift; assumption
  | |- keeps _ (deref _) => apply keeps_deref; assumption
  | |- keeps _ (CHECK _) => apply keeps_CHECK; assumption
  | |- keeps _ (DCHECK _) => apply keeps_DCHECK; assumption
  | |- keeps _ (when _ _) => apply keeps_when; [solve [assumption] .. |]
  | |- keeps _ (for_each _ _) =>
      apply keeps_for_each; [solve [assumption] .. | intros ?]
  | |- keeps _ (modify _) => apply keeps_modify; intros ?
  | |- keeps _ (if ?c then _ else _) => destruct c
  | |- keeps _ (match ?x with _ => _ end) => destruct x
  | H : forall v, keeps _ (?f v) |- keeps _ (?f _) => apply H
  end.

(** *** What the dispatcher and the block driver leave alone *)

Create HintDb keeps.

Section BuilderFrames.

Variable R : State -> State -> Prop.
Hypothesis R_refl : forall s, R s s.
Hypothesis R_trans : forall a b c, R a b -> R b c -> R a c.

(** The writes a visit can make. *)
Hypothesis R_llvm_value :
  forall v x s, R s (with_store (store_llvm_value v x) s).
Hypothesis R_llvm_basic_block :
  forall b x s, R s (with_store (store_llvm_basic_block b x) s).
Hypothesis R_environments :
  forall x s, R s (with_store (store_environments x) s).
Hypothesis R_target :
  forall f s,
    (forall t, created_modules (f t) = created_modules t /\
               added_modules (f t) = added_modules t) ->
    R s (with_target f s).
Hypothesis R_current_instruction :
  forall x s, R s (with_builder (set_current_instruction_ x) s).
Hypothesis R_aborted : forall s, R s (with_builder (set_status_ ABORTED) s).

Lemma keeps_UNIMPLEMENTED : keeps R UNIMPLEMENTED.
Proof. apply keeps_modify. exact R_aborted. Qed.

Lemma keeps_Insert v : keeps R (Insert v).
Proof.
  unfold Insert. repeat keeps_step.
  apply R_target. intros t. split; reflexivity.
Qed.

Lemma keeps_getInt64 x : keeps R (getInt64 x).
Proof. unfold getInt64. repeat keeps_step. Qed.

Lemma keeps_set_llvm_value i v : keeps R (set_llvm_value i v).
Proof. apply keeps_modify. intros s. apply R_llvm_value. Qed.

Lemma keeps_print_module : keeps R print_module.
Proof. unfold print_module. repeat keeps_step. Qed.

Lemma keeps_set_current_instruction x :
  keeps R (modify (with_builder (set_current_instruction_ x))).
Proof. apply keeps_modify. intros s. apply R_current_instruction. Qed.

Lemma keeps_UseBlock b : keeps R (UseBlock b).
Proof.
  unfold UseBlock, BasicBlock_Create. repeat keeps_step.
  - apply R_target. intros t. split; reflexivity.
  - apply R_llvm_basic_block.
Qed.

Lemma keeps_environment e : keeps R (environment e).
Proof. unfold environment. repeat keeps_step. Qed.

#[local] Hint Resolve keeps_UNIMPLEMENTED keeps_Insert keeps_getInt64
  keeps_set_llvm_value keeps_print_module keeps_UseBlock
  keeps_environment : keeps.

(** Unfold the handlers down to the primitives above. *)
Ltac keeps_auto :=
  repeat first
    [ keeps_step
    | solve [auto with keeps]
    | progress unfold CreateAdd, CreateSub, CreateMul, CreateShl, CreateLShr,
        CreateICmp, CreateBr, CreateCondBr, CreateRet ].

Section Visit.

Variable SmiValuesAre32Bits : bool.
Variable graph : HGraph.
Variable Visit : HValueId -> M unit.
Hypothesis keeps_Visit : forall v, keeps R (Visit v).

Lemma keeps_Use v : keeps R (Use graph Visit v).
Proof. unfold Use. keeps_auto. Qed.

#[local] Hint Resolve keeps_Use : keeps.

Lemma keeps_SmiToInteger32 v :
  keeps R (SmiToInteger32 SmiValuesAre32Bits graph Visit v).
Proof. unfold SmiToInteger32. keeps_auto. Qed.

Lemma keeps_Integer32ToSmi v :
  keeps R (Integer32ToSmi SmiValuesAre32Bits graph Visit v).
Proof. unfold Integer32ToSmi. keeps_auto. Qed.

#[local] Hint Resolve keeps_SmiToInteger32 keeps_Integer32ToSmi : keeps.

Lemma keeps_DoChange i v from to :
  keeps R (DoChange SmiValuesAre32Bits graph Visit i v from to).
Proof. unfold DoChange. keeps_auto. Qed.

Lemma keeps_DoSimulate i replay : keeps R (DoSimulate i replay).
Proof.
  unfold DoSimulate. keeps_auto. apply R_environments.
Qed.

Lemma keeps_CompileToLLVM i :
  keeps R (CompileToLLVM SmiValuesAre32Bits graph Visit i).
Proof.
  unfold CompileToLLVM.
  destruct (operation (value_at graph i)).
  - unfold DoBlockEntry. keeps_auto.
  - unfold DoContext. keeps_auto.
  - unfold DoParameter. keeps_auto.
  - unfold DoArgumentsObject. keeps_auto.
  - apply keeps_DoSimulate.
  - unfold DoStackCheck. keeps_auto.
  - unfold DoConstant. keeps_auto.
  - unfold DoReturn. keeps_auto.
  - unfold DoAdd. keeps_auto.
  - unfold DoSub. keeps_auto.
  - unfold DoMul. keeps_auto.
  - apply keeps_DoChange.
  - unfold DoCompareNumericAndBranch. keeps_auto.
  - auto with keeps.
Qed.

Lemma keeps_VisitInstruction_body current :
  keeps R (VisitInstruction_body SmiValuesAre32Bits graph Visit current).
Proof.
  unfold VisitInstruction_body.
  apply keeps_bind; [assumption | apply keeps_get; assumption |].
  intros old.
  apply keeps_bind; [assumption | apply keeps_set_current_instruction |].
  intros _.
  apply keeps_bind; [assumption | | intros _; apply keeps_set_current_instruction].
  destruct (CanReplaceWithDummyUses (value_at graph current)).
  - keeps_auto.
  - destruct (IsControlInstruction (value_at graph current));
      [destruct (KnownSuccessorBlock (value_at graph current)) as [[b |] |] |];
      try apply keeps_CompileToLLVM.
    keeps_auto.
Qed.

End Visit.

Lemma keeps_VisitInstruction smi graph depth current :
  keeps R (VisitInstruction smi graph depth current).
Proof.
  revert current. induction depth as [| depth IH]; intros current.
  - intros s a s' H. discriminate H.
  - simpl. apply keeps_VisitInstruction_body. exact IH.
Qed.

(** The further writes of the block driver. *)
Section Block.

Hypothesis R_last_environment :
  forall b x s, R s (with_store (store_last_environment b x) s).
Hypothesis R_argument_count :
  forall b x s, R s (with_store (store_argument_count b x) s).
Hypothesis R_builder_argument_count :
  forall x s, R s (with_builder (set_argument_count_ x) s).
Hypothesis R_llvm_ir_builder :
  forall x s, R s (with_builder (set_llvm_ir_builder_ x) s).
Hypothesis R_current_block :
  forall x s, R s (with_builder (set_current_block_ x) s).
Hypothesis R_next_block :
  forall x s, R s (with_builder (set_next_block_ x) s).

Variable SmiValuesAre32Bits : bool.
Variable graph : HGraph.
Variable depth : nat.

Lemma keeps_HEnvironment_Copy e : keeps R (HEnvironment_Copy e).
Proof. unfold HEnvironment_Copy. keeps_auto. apply R_environments. Qed.

Lemma keeps_SetValueAt e i v : keeps R (SetValueAt e i v).
Proof. unfold SetValueAt. keeps_auto. apply R_environments. Qed.

Lemma keeps_UpdateEnvironment b e : keeps R (UpdateEnvironment b e).
Proof. apply keeps_modify. intros s. apply R_last_environment. Qed.

Lemma keeps_set_builder_argument_count n :
  keeps R (set_builder_argument_count n).
Proof. apply keeps_modify. intros s. apply R_builder_argument_count. Qed.

#[local] Hint Resolve keeps_HEnvironment_Copy keeps_SetValueAt
  keeps_UpdateEnvironment keeps_set_builder_argument_count : keeps.

Lemma keeps_DoBasicBlock_environment b :
  keeps R (DoBasicBlock_environment graph b).
Proof. unfold DoBasicBlock_environment. keeps_auto. Qed.

Lemma keeps_DoBasicBlock_instructions chain :
  keeps R (DoBasicBlock_instructions SmiValuesAre32Bits graph depth chain).
Proof.
  induction chain as [| current rest IH]; simpl.
  - apply keeps_ret. assumption.
  - keeps_auto; try exact IH; apply keeps_VisitInstruction.
Qed.

Lemma keeps_DoBasicBlock b next :
  keeps R (DoBasicBlock SmiValuesAre32Bits graph depth b next).
Proof.
  unfold DoBasicBlock.
  keeps_auto;
    first [ apply keeps_DoBasicBlock_environment
          | apply keeps_DoBasicBlock_instructions
          | apply R_llvm_ir_builder
          | apply R_current_block
          | apply R_next_block
          | apply R_argument_count ].
Qed.

End Block.

End BuilderFrames.

(** *** The three frames used below *)









(* ------------------------------------------------------------------ *)
(** ** The dispatcher's current instruction *)

Lemma VisitInstruction_body_restores smi graph Visit current s a s' :
  VisitInstruction_body smi graph Visit current s = Done (a, s') ->
  same_current_instruction s s'.
Proof.
  unfold VisitInstruction_body, same_current_instruction. intros H.
  apply bind_Done in H as (old & s1 & H1 & H).
  inversion H1; subst; clear H1.
  apply bind_Done in H as (u2 & s2 & _ & H).
  apply bind_Done in H as (u3 & s3 & _ & H).
  inversion H; subst. reflexivity.
Qed.

Lemma VisitInstruction_restores smi graph depth current :
  keeps same_current_instruction (VisitInstruction smi graph depth current).
Proof.
  intros s a s' H. destruct depth as [| depth]; simpl in H.
  - discriminate H.
  - eapply VisitInstruction_body_restores. exact H.
Qed.

(** C10: a finished visit leaves [current_instruction_] as it found it,
    whatever the handler did in between and however deep the visits
    nested; so does [Use], whose only write to the builder is the visit
    it may start for an emit-at-use operand. *)
Theorem VisitInstruction_restores_current_instruction
  (smi : bool) (graph : HGraph) (depth : nat) (current : HValueId)
  (s : State) :
  (forall s', VisitInstruction smi graph depth current s = Done (tt, s') ->
              current_instruction_ (builder s')
              = current_instruction_ (builder s)) /\
  (forall v s', Use graph (VisitInstruction smi graph depth) current s
                = Done (v, s') ->
                current_instruction_ (builder s')
                = current_instruction_ (builder s)).
Proof.
  split.
  - intros s' H. eapply VisitInstruction_restores. exact H.
  - intros v s' H.
    eapply (@keeps_Use same_current_instruction); [| | | exact H].
    + intros x. reflexivity.
    + unfold same_current_instruction. intros a b c Hab Hbc. congruence.
    + intros x. apply VisitInstruction_restores.
Qed.

(** C10 on [inc_graph]: visiting the addition (instruction 5) while the
    builder is at instruction 8 visits the constant 3 through [Use], and
    the builder is at instruction 8 again afterwards. *)
Lemma VisitInstruction_restores_current_instruction_witness :
  exists s',
    VisitInstruction true inc_graph 2%nat 5%nat visiting_state = Done (tt, s') /\
    current_instruction_ (builder s') = Some 8%nat /\
    llvm_value (store s') 3%nat = Some (ConstantInt64 1) /\
    llvm_value (store s') 5%nat
    = Some (AddInst (LShrInst (Argument 2) 32) (ConstantInt64 1)).
Proof.
  eexists. split; [vm_compute; reflexivity |].
  split.
  - apply (proj1 (VisitInstruction_restores_current_instruction
                    true inc_graph 2%nat 5%nat visiting_state)).
    vm_compute. reflexivity.
  - split; vm_compute; reflexivity.
Defined.

(* ------------------------------------------------------------------ *)
(** ** The function signature *)

Lemma replace_at_app {A} (pre : list A) y post x :
  replace_at (pre ++ y :: post) (length pre) x = pre ++ x :: post.
Proof.
  induction pre as [| p pre IH]; simpl; [reflexivity | now rewrite IH].
Qed.

Lemma fill_params k : forall (pre : list (option LType)),
  fold_left (fun params i => replace_at params i (Some Int64Ty))
            (seq (length pre) k) (pre ++ repeat None k)
  = pre ++ repeat (Some Int64Ty) k.
Proof.
  induction k as [| k IH]; intros pre; simpl; [reflexivity |].
  rewrite replace_at_app.
  change (pre ++ Some Int64Ty :: repeat None k)
    with (pre ++ [Some Int64Ty] ++ repeat None k).
  rewrite app_assoc.
  replace (S (length pre)) with (length (pre ++ [Some Int64Ty]))
    by (rewrite length_app; simpl; lia).
  rewrite IH, <- app_assoc. reflexivity.
Qed.

Lemma params_all_Int64 n :
  params n = repeat (Some Int64Ty) (Z.to_nat n).
Proof. unfold params. exact (fill_params (Z.to_nat n) []). Qed.

Lemma the_types_repeat k :
  the_types (repeat (Some Int64Ty) k) = Some (repeat Int64Ty k).
Proof. induction k as [| k IH]; simpl; [| rewrite IH]; reflexivity. Qed.

Lemma Build_function_type_eq graph s :
  Build_function_type graph s
  = Done (mkFunctionType Int64Ty
            (repeat Int64Ty (Z.to_nat (num_parameters (info graph) + 3))), s).
Proof.
  unfold Build_function_type, FunctionType_get.
  rewrite params_all_Int64, the_types_repeat. reflexivity.
Qed.




(* ------------------------------------------------------------------ *)
(** ** Abort *)

Lemma is_aborted_status s : is_aborted s = true -> status_ (builder s) = ABORTED.
Proof.
  unfold is_aborted. destruct (status_ (builder s)); congruence.
Qed.

Lemma DoBasicBlock_instructions_aborted smi graph depth chain s :
  is_aborted s = true ->
  DoBasicBlock_instructions smi graph depth chain s = Done (tt, s).
Proof.
  intros H. destruct chain as [| current rest]; simpl.
  - reflexivity.
  - unfold bind, get. rewrite H. reflexivity.
Qed.





(* ------------------------------------------------------------------ *)
(** ** Parameter binding *)

(** The loop [while (--index + num_parameters > 0) ++it;] advances [it]
    by [index + num_parameters - 1] places, by none when that is not
    positive. *)
Lemma advance_closed index num_parameters it :
  advance index num_parameters it
  = (it + Z.to_nat (index + num_parameters - 1))%nat.
Proof.
  funelim (advance index num_parameters it).
  - rewrite H. lia.
  - lia.
Qed.



(* ------------------------------------------------------------------ *)
(** ** Representation changes *)

(** A value that has its handle is not visited again. *)
Lemma Use_materialized graph Visit value s v :
  llvm_value (store s) value = Some v ->
  Use graph Visit value s = Done (v, s).
Proof.
  intros H. unfold Use, bind, get. rewrite H. simpl.
  rewrite Bool.andb_false_r. simpl. rewrite H. reflexivity.
Qed.

(** [Insert] with a builder that inserts into block [bb]. *)
Lemma Insert_eq x s bb :
  llvm_ir_builder_ (builder s) = Some bb ->
  Insert x s
  = Done (x, with_target (fun t =>
                mkTarget (created_blocks t) (inserted t ++ [(Some bb, x)])
                         (created_modules t) (added_modules t)) s).
Proof.
  intros H. unfold Insert, bind, get. rewrite H. reflexivity.
Qed.





(* ------------------------------------------------------------------ *)
(** ** Tagging round trip *)






(* ------------------------------------------------------------------ *)
(** ** Environment propagation *)

Lemma length_replace_at {A} (l : list A) i x :
  length (replace_at l i x) = length l.
Proof.
  revert i. induction l as [| y l IH]; intros [| i]; simpl; auto.
Qed.

Lemma nth_error_replace_at_eq {A} (l : list A) i x :
  (i < length l)%nat -> nth_error (replace_at l i x) i = Some x.
Proof.
  revert i. induction l as [| y l IH]; intros [| i]; simpl; intros H;
    try lia; [reflexivity | apply IH; lia].
Qed.

Lemma nth_error_replace_at_neq {A} (l : list A) i j x :
  i <> j -> nth_error (replace_at l i x) j = nth_error l j.
Proof.
  revert i j. induction l as [| y l IH]; intros [| i] [| j] H; simpl;
    try reflexivity; [congruence | apply IH; congruence].
Qed.

Lemma replace_at_twice {A} (l : list A) i x y :
  replace_at (replace_at l i x) i y = replace_at l i y.
Proof.
  revert i. induction l as [| z l IH]; intros [| i]; simpl;
    try reflexivity. now rewrite IH.
Qed.

Lemma replace_at_same {A} (l : list A) i x :
  nth_error l i = Some x -> replace_at l i x = l.
Proof.
  revert i. induction l as [| z l IH]; intros [| i]; simpl; intros H;
    try reflexivity.
  - congruence.
  - now rewrite IH.
Qed.

Lemma nth_error_in_range {A} (l : list A) i x :
  nth_error l i = Some x -> (i < length l)%nat.
Proof. intros H. apply nth_error_Some. congruence. Qed.

Lemma environment_eq e env s :
  nth_error (environments (store s)) e = Some env ->
  environment e s = Done (env, s).
Proof. intros H. unfold environment, bind, get. rewrite H. reflexivity. Qed.

(** [Copy] allocates: the new reference is none of the old ones. *)
Lemma HEnvironment_Copy_eq e env s :
  nth_error (environments (store s)) e = Some env ->
  HEnvironment_Copy e s
  = Done (length (environments (store s)),
          with_store (store_environments (environments (store s) ++ [env])) s).
Proof.
  intros H. unfold HEnvironment_Copy.
  rewrite (bind_eq _ _ _ _ _ (environment_eq _ _ _ H)). reflexivity.
Qed.

(** C2, the counterexample: in [diamond_graph] block 1 has the single
    predecessor 0, whose successors are 1 and 2.  It is not the case that
    both successor numbers exceed 1, yet after the compilation block 1
    holds environment object 1, a copy, while block 0 holds object 0. *)
Lemma single_predecessor_copy_with_one_forward_successor :
  outcome diamond_run = Done (Some (mkLLVMChunk (Some 0%nat))) /\
  IsStartBlock (block_at diamond_graph 1%nat) = false /\
  predecessors (block_at diamond_graph 1%nat) = [0%nat] /\
  successors (block_at diamond_graph 0%nat) = [1%nat; 2%nat] /\
  Nat.ltb 1 1 && Nat.ltb 1 2 = false /\
  environment_after diamond_run 0%nat = Some (0%nat, [20; 21; 22]%nat) /\
  environment_after diamond_run 2%nat = Some (0%nat, [20; 21; 22]%nat) /\
  option_map fst (environment_after diamond_run 1%nat) = Some 1%nat.
Proof. repeat split; vm_compute; reflexivity. Qed.

(** C2, as the code has it: for a block [b] that is not the start block
    and has the single predecessor [pred] (and so no phis), whose final
    environment is the object [e]: after the environment propagation of
    [DoBasicBlock] the block's environment is the object [e] itself
    unless [pred] has two successors and at least one of the two numbers
    exceeds [b]'s; then it is a new object with the same slots, and the
    object [e] is as it was.  [argument_count_] is the predecessor's
    outgoing argument count. *)
Theorem DoBasicBlock_environment_single_predecessor
  (graph : HGraph) (b pred : BlockId) (s : State)
  (e : EnvRef) (env : HEnvironment) :
  IsStartBlock (block_at graph b) = false ->
  predecessors (block_at graph b) = [pred] ->
  phis (block_at graph b) = [] ->
  last_environment (store s) pred = Some e ->
  nth_error (environments (store s)) e = Some env ->
  0 <= argument_count (store s) pred ->
  (SecondSuccessor (block_at graph pred) = None ->
   FirstSuccessor (block_at graph pred) = Some b) ->
  exists s' e',
    DoBasicBlock_environment graph b s = Done (tt, s') /\
    last_environment (store s') b = Some e' /\
    Nat.eqb e' e
    = negb match successors (block_at graph pred) with
           | first :: second :: _ => Nat.ltb b first || Nat.ltb b second
           | _ => false
           end /\
    nth_error (environments (store s')) e' = Some env /\
    nth_error (environments (store s')) e = Some env /\
    argument_count_ (builder s') = argument_count (store s) pred.
Proof.
  intros Hstart Hpred Hphis Hle He Hcount Hone.
  assert (Hge : (argument_count (store s) pred >=? 0) = true)
    by (apply Z.geb_le; exact Hcount).
  pose proof (nth_error_in_range _ _ _ He) as Hrange.
  unfold DoBasicBlock_environment.
  rewrite Hstart, Hpred, Hphis. simpl.
  unfold bind at 1. simpl. unfold bind at 1. simpl.
  unfold bind at 1. unfold get at 1. rewrite Hle. simpl.
  unfold bind at 1. simpl. unfold bind at 1. simpl.
  unfold FirstSuccessor, SecondSuccessor in *.
  destruct (successors (block_at graph pred)) as [| first [| second rest]];
    simpl in *.
  - specialize (Hone eq_refl). discriminate Hone.
  - specialize (Hone eq_refl). injection Hone as ->.
    rewrite Nat.eqb_refl. simpl.
    exists (with_builder (set_argument_count_ (argument_count (store s) pred))
              (with_store (store_last_environment b (Some e)) s)), e.
    split.
    { unfold bind, UpdateEnvironment, modify, get, DCHECK,
        set_builder_argument_count, ret; simpl.
      rewrite Hge. reflexivity. }
    simpl. unfold upd. rewrite !Nat.eqb_refl. auto.
  - destruct (Nat.ltb b first || Nat.ltb b second) eqn:Hcopy.
    + exists (with_builder
                (set_argument_count_ (argument_count (store s) pred))
                (with_store
                   (store_last_environment b
                      (Some (length (environments (store s)))))
                   (with_store
                      (store_environments (environments (store s) ++ [env]))
                      s))),
             (length (environments (store s))).
      split.
      { unfold bind, ret. rewrite Hcopy, (HEnvironment_Copy_eq _ _ _ He).
        unfold UpdateEnvironment, modify, get, DCHECK,
          set_builder_argument_count, ret; simpl.
        rewrite Hge. reflexivity. }
      simpl. unfold upd. rewrite Nat.eqb_refl.
      split; [reflexivity |].
      split; [apply Nat.eqb_neq; lia |].
      split; [rewrite nth_error_app2, Nat.sub_diag by lia; reflexivity |].
      split; [rewrite nth_error_app1 by lia; exact He | reflexivity].
    + exists (with_builder
                (set_argument_count_ (argument_count (store s) pred))
                (with_store (store_last_environment b (Some e)) s)), e.
      split.
      { unfold bind, ret. rewrite Hcopy.
        unfold UpdateEnvironment, modify, get, DCHECK,
          set_builder_argument_count, ret; simpl.
        rewrite Hge. reflexivity. }
      simpl. unfold upd. rewrite !Nat.eqb_refl. auto.
Qed.

(** C2 on [diamond_graph]: when block 0 is done, block 1 gets a copy
    (object 1) of block 0's environment (object 0), since block 2 is still
    to come. *)
Lemma DoBasicBlock_environment_single_predecessor_witness :
  exists s,
    (Build_prologue diamond_graph ;;
     DoBasicBlock true diamond_graph 3%nat 0%nat (Some 1%nat))
      (with_builder (fun _ => new_builder)
                    (initial_state [20; 21; 22]%nat)) = Done (tt, s) /\
    exists s' e',
      DoBasicBlock_environment diamond_graph 1%nat s = Done (tt, s') /\
      last_environment (store s') 1%nat = Some e' /\
      Nat.eqb e' 0 = false /\
      nth_error (environments (store s')) e' = Some [20; 21; 22]%nat /\
      nth_error (environments (store s')) 0 = Some [20; 21; 22]%nat.
Proof.
  eexists. split; [vm_compute; reflexivity |].
  edestruct (DoBasicBlock_environment_single_predecessor
               diamond_graph 1%nat 0%nat)
    as (s' & e' & Hrun & Hle & Hsame & Hcopy & Hold & _);
    [ .. | exists s', e'; repeat split; eassumption ].
  - reflexivity.
  - reflexivity.
  - reflexivity.
  - vm_compute. reflexivity.
  - vm_compute. reflexivity.
  - vm_compute. discriminate.
  - intros H. discriminate H.
Defined.

(** *** Joins *)

Lemma set_environment_same e env s :
  nth_error (environments (store s)) e = Some env ->
  set_environment e env s = s.
Proof.
  intros H. unfold set_environment, with_store, store_environments.
  rewrite (replace_at_same _ _ _ H).
  destruct s as [b [lv lb le ac envs] t]. reflexivity.
Qed.

Lemma set_environment_twice e env1 env2 s :
  set_environment e env2 (set_environment e env1 s) = set_environment e env2 s.
Proof.
  unfold set_environment, with_store, store_environments. simpl.
  rewrite replace_at_twice. reflexivity.
Qed.

Lemma environment_set_environment e env0 env s :
  nth_error (environments (store s)) e = Some env0 ->
  nth_error (environments (store (set_environment e env s))) e = Some env.
Proof.
  intros H. simpl. apply nth_error_replace_at_eq.
  exact (nth_error_in_range _ _ _ H).
Qed.

Lemma SetValueAt_eq e index v env s :
  nth_error (environments (store s)) e = Some env ->
  (index < length env)%nat ->
  SetValueAt e index v s
  = Done (tt, set_environment e (replace_at env index v) s).
Proof.
  intros He Hi. unfold SetValueAt.
  rewrite (bind_eq _ _ _ _ _ (environment_eq _ _ _ He)).
  apply Nat.ltb_lt in Hi. unfold bind, DCHECK. rewrite Hi. reflexivity.
Qed.

Lemma length_with_phis ps env : length (with_phis ps env) = length env.
Proof.
  revert env. induction ps as [| p ps IH]; intros env; [reflexivity |].
  unfold with_phis in *. simpl. rewrite IH.
  destruct (merged_index p); [apply length_replace_at | reflexivity].
Qed.


(** The phi loop of the join case, run on the environment object [e]. *)
Lemma phi_loop_eq e ps : forall env s,
  nth_error (environments (store s)) e = Some env ->
  (forall phi index, In phi ps -> merged_index phi = Some index ->
                     (index < length env)%nat) ->
  for_each ps (fun phi =>
    match merged_index phi with
    | Some index => SetValueAt e index (phi_value phi)
    | None => ret tt
    end) s
  = Done (tt, set_environment e (with_phis ps env) s).
Proof.
  induction ps as [| p ps IH]; intros env s He Hin; simpl.
  - rewrite (set_environment_same _ _ _ He). reflexivity.
  - unfold with_phis; simpl. fold (with_phis ps).
    destruct (merged_index p) as [index |] eqn:Hp.
    + assert (Hi : (index < length env)%nat)
        by (apply (Hin p); [left; reflexivity | exact Hp]).
      rewrite (bind_eq _ _ _ _ _ (SetValueAt_eq _ _ _ _ _ He Hi)).
      rewrite (IH (replace_at env index (phi_value p))).
      * rewrite set_environment_twice. reflexivity.
      * eapply environment_set_environment. exact He.
      * intros phi j Hphi Hj. rewrite length_replace_at.
        apply (Hin phi); [right; exact Hphi | exact Hj].
    + unfold bind at 1, ret at 1.
      apply IH; [exact He |].
      intros phi j Hphi Hj. apply (Hin phi); [right; exact Hphi | exact Hj].
Qed.

(** The deleted-phi loop of the join case. *)
Lemma deleted_phi_loop_eq e u ds : forall env s,
  nth_error (environments (store s)) e = Some env ->
  for_each ds (fun deleted =>
    env <- environment e ;;
    if Nat.ltb deleted (length env)
    then SetValueAt e deleted u
    else ret tt) s
  = Done (tt, set_environment e (with_deleted_phis ds u env) s).
Proof.
  induction ds as [| d ds IH]; intros env s He; simpl.
  - rewrite (set_environment_same _ _ _ He). reflexivity.
  - unfold with_deleted_phis; simpl. fold (with_deleted_phis ds u).
    unfold bind at 1.
    rewrite (bind_eq _ _ _ _ _ (environment_eq _ _ _ He)).
    destruct (Nat.ltb d (length env)) eqn:Hd.
    + apply Nat.ltb_lt in Hd.
      rewrite (SetValueAt_eq _ _ _ _ _ He Hd).
      rewrite (IH (replace_at env d u)).
      * rewrite set_environment_twice. reflexivity.
      * eapply environment_set_environment. exact He.
    + unfold ret at 1. apply IH. exact He.
Qed.

Lemma with_deleted_phis_cons d ds u env :
  with_deleted_phis (d :: ds) u env
  = with_deleted_phis ds u
      (if Nat.ltb d (length env) then replace_at env d u else env).
Proof. reflexivity. Qed.

Lemma with_phis_cons p ps env :
  with_phis (p :: ps) env
  = with_phis ps match merged_index p with
                 | Some index => replace_at env index (phi_value p)
                 | None => env
                 end.
Proof. reflexivity. Qed.

(** What the slots hold after the two loops. *)
Lemma with_deleted_phis_slot ds u : forall env j,
  nth_error (with_deleted_phis ds u env) j
  = if existsb (Nat.eqb j) ds && Nat.ltb j (length env)
    then Some u else nth_error env j.
Proof.
  induction ds as [| d ds IH]; intros env j; [reflexivity |].
  rewrite with_deleted_phis_cons, IH. simpl existsb.
  destruct (Nat.ltb d (length env)) eqn:Hd.
  - rewrite length_replace_at.
    destruct (Nat.eqb_spec j d) as [-> | Hjd].
    + rewrite Bool.orb_true_l, Hd. simpl.
      apply Nat.ltb_lt in Hd.
      rewrite (nth_error_replace_at_eq _ _ u Hd).
      destruct (existsb (Nat.eqb d) ds); reflexivity.
    + rewrite Bool.orb_false_l.
      rewrite nth_error_replace_at_neq by congruence. reflexivity.
  - destruct (Nat.eqb_spec j d) as [-> | Hjd].
    + rewrite Hd, !Bool.andb_false_r. reflexivity.
    + rewrite Bool.orb_false_l. reflexivity.
Qed.

Lemma with_phis_other_slot ps : forall env j,
  (forall phi, In phi ps -> merged_index phi <> Some j) ->
  nth_error (with_phis ps env) j = nth_error env j.
Proof.
  induction ps as [| p ps IH]; intros env j H; [reflexivity |].
  rewrite with_phis_cons.
  rewrite IH by (intros phi Hphi; apply H; right; exact Hphi).
  destruct (merged_index p) as [index |] eqn:Hp; [| reflexivity].
  apply nth_error_replace_at_neq. intros ->.
  apply (H p); [left; reflexivity | exact Hp].
Qed.

Lemma with_phis_app ps qs env :
  with_phis (ps ++ qs) env = with_phis qs (with_phis ps env).
Proof. unfold with_phis. apply fold_left_app. Qed.

Lemma with_phis_phi_slot ps : forall env phi index,
  In phi ps -> merged_index phi = Some index ->
  (index < length env)%nat ->
  (forall phi', In phi' ps -> merged_index phi' = Some index ->
                phi_value phi' = phi_value phi) ->
  nth_error (with_phis ps env) index = Some (phi_value phi).
Proof.
  induction ps as [| p ps IH] using rev_ind; intros env phi index Hin Hphi Hi Hone.
  - destruct Hin.
  - rewrite with_phis_app. unfold with_phis at 1; simpl.
    destruct (merged_index p) as [j |] eqn:Hp.
    + destruct (Nat.eq_dec j index) as [-> | Hj].
      * rewrite <- (Hone p) by (try apply in_or_app; auto; right; left; reflexivity).
        apply nth_error_replace_at_eq. rewrite length_with_phis. exact Hi.
      * rewrite nth_error_replace_at_neq by exact Hj.
        apply in_app_or in Hin. destruct Hin as [Hin | [<- | []]];
          [| congruence].
        apply IH; auto.
        intros phi' Hphi' Hj'. apply Hone; [apply in_or_app; left |]; assumption.
    + apply in_app_or in Hin. destruct Hin as [Hin | [<- | []]];
        [| congruence].
      apply IH; auto.
      intros phi' Hphi' Hj'. apply Hone; [apply in_or_app; left |]; assumption.
Qed.

Lemma existsb_eqb_In j ds : existsb (Nat.eqb j) ds = true <-> In j ds.
Proof.
  rewrite existsb_exists. split.
  - intros (x & Hx & E). apply Nat.eqb_eq in E. subst. exact Hx.
  - intros H. exists j. split; [exact H | apply Nat.eqb_refl].
Qed.

Lemma existsb_eqb_not_In j ds : ~ In j ds -> existsb (Nat.eqb j) ds = false.
Proof.
  intros H. destruct (existsb (Nat.eqb j) ds) eqn:E; [| reflexivity].
  apply existsb_eqb_In in E. contradiction.
Qed.

(** The environment propagation at a join.  For a block [b] that is not
    the start block and has more than one predecessor, the first of them,
    [pred], ending in the environment object [e]: the propagation gives
    [b] the object [e] itself -- no environment object is created --
    after writing into it, first, each phi's value at the slot the phi
    was merged into and, then, the undefined constant at each deleted-phi
    slot that the environment has; [argument_count_] becomes [pred]'s
    outgoing argument count. *)
Lemma join_propagation
  (graph : HGraph) (b pred other : BlockId) (others : list BlockId)
  (s : State) (e : EnvRef) (env : HEnvironment) :
  IsStartBlock (block_at graph b) = false ->
  predecessors (block_at graph b) = pred :: other :: others ->
  last_environment (store s) pred = Some e ->
  nth_error (environments (store s)) e = Some env ->
  (forall phi index,
     In phi (phis (block_at graph b)) -> merged_index phi = Some index ->
     (index < length env)%nat) ->
  let undefined := GetConstantUndefined graph in
  let deleted := deleted_phis (block_at graph b) in
  let merged :=
    with_deleted_phis deleted undefined
      (with_phis (phis (block_at graph b)) env) in
  exists s',
    DoBasicBlock_environment graph b s = Done (tt, s') /\
    last_environment (store s') b = Some e /\
    length (environments (store s')) = length (environments (store s)) /\
    nth_error (environments (store s')) e = Some merged /\
    argument_count_ (builder s') = argument_count (store s) pred /\
    (forall d, In d deleted -> (d < length env)%nat ->
               nth_error merged d = Some undefined) /\
    (forall phi index,
       In phi (phis (block_at graph b)) -> merged_index phi = Some index ->
       ~ In index deleted ->
       (forall phi', In phi' (phis (block_at graph b)) ->
                     merged_index phi' = Some index ->
                     phi_value phi' = phi_value phi) ->
       nth_error merged index = Some (phi_value phi)) /\
    (forall j,
       (forall phi, In phi (phis (block_at graph b)) ->
                    merged_index phi <> Some j) ->
       ~ In j deleted ->
       nth_error merged j = nth_error env j).
Proof.
  intros Hstart Hpred Hle He Hin undefined deleted merged.
  pose proof (nth_error_in_range _ _ _ He) as Hrange.
  exists (with_builder (set_argument_count_ (argument_count (store s) pred))
            (with_store (store_last_environment b (Some e))
               (set_environment e merged s))).
  split.
  { unfold DoBasicBlock_environment. rewrite Hstart, Hpred. simpl.
    unfold bind at 1. simpl. unfold bind at 1. unfold get at 1.
    rewrite Hle. simpl. unfold bind at 1. simpl.
    rewrite (bind_eq _ _ _ _ _ (phi_loop_eq e _ env s He Hin)).
    rewrite (bind_eq _ _ _ _ _
               (deleted_phi_loop_eq e undefined deleted
                  (with_phis (phis (block_at graph b)) env) _
                  (environment_set_environment _ _ _ _ He))).
    rewrite set_environment_twice. reflexivity. }
  split; [simpl; unfold upd; rewrite Nat.eqb_refl; reflexivity |].
  split; [simpl; apply length_replace_at |].
  split; [simpl; apply nth_error_replace_at_eq; exact Hrange |].
  split; [reflexivity |].
  split; [| split].
  - intros d Hd Hlen. unfold merged. rewrite with_deleted_phis_slot.
    rewrite (proj2 (existsb_eqb_In d deleted) Hd), length_with_phis.
    apply Nat.ltb_lt in Hlen. rewrite Hlen. reflexivity.
  - intros phi index Hphi Hindex Hnot Hone. unfold merged.
    rewrite with_deleted_phis_slot, (existsb_eqb_not_In _ _ Hnot). simpl.
    apply with_phis_phi_slot; auto. apply (Hin phi); assumption.
  - intros j Hj Hnot. unfold merged.
    rewrite with_deleted_phis_slot, (existsb_eqb_not_In _ _ Hnot). simpl.
    apply with_phis_other_slot. exact Hj.
Qed.

(* ------------------------------------------------------------------ *)
(** ** Operand resolution of the arithmetic handlers *)

(** C4, at the failing input: in [arithmetic_graph], with the left operand
    materialized and the right operand a constant emitted at its uses
    that no one has used yet, the addition resolves the constant through
    [Use] and is memoized as the sum; the subtraction and the
    multiplication of the same operands read the operands' handles
    directly and die on [CHECK(right->llvm_value())].  After the
    addition has materialized the constant, the subtraction goes
    through. *)
Theorem DoSub_DoMul_bypass_Use :
  outcome (VisitInstruction true arithmetic_graph 2%nat 5%nat visiting_state)
  = Done tt /\
  word_after (VisitInstruction true arithmetic_graph 2%nat 5%nat
                visiting_state) (fun _ => 7 * 2 ^ 32) 5%nat = Some 8 /\
  EmitAtUses (value_at arithmetic_graph 3%nat) = true /\
  llvm_value (store visiting_state) 3%nat = None /\
  outcome (VisitInstruction true arithmetic_graph 2%nat 6%nat visiting_state)
  = Fatal CheckFailed /\
  outcome (VisitInstruction true arithmetic_graph 2%nat 7%nat visiting_state)
  = Fatal CheckFailed /\
  word_after ((VisitInstruction true arithmetic_graph 2%nat 5%nat ;;
               VisitInstruction true arithmetic_graph 2%nat 6%nat)
                visiting_state) (fun _ => 7 * 2 ^ 32) 6%nat = Some 6.
Proof. repeat split; vm_compute; reflexivity. Qed.

(** In general: where [DoAdd] would call [Use], [DoSub] and [DoMul] die
    on an operand that has no handle, emitted at its uses or not. *)
Lemma DoSub_DoMul_without_handle graph instr left right s l :
  IsInteger32 (representation (value_at graph instr))
  || IsSmi (representation (value_at graph instr)) = true ->
  Representation_Equals (representation (value_at graph left))
                        (representation (value_at graph instr)) = true ->
  Representation_Equals (representation (value_at graph right))
                        (representation (value_at graph instr)) = true ->
  llvm_value (store s) left = Some l ->
  llvm_value (store s) right = None ->
  DoSub graph instr left right s = Fatal CheckFailed /\
  DoMul graph instr left right s = Fatal CheckFailed.
Proof.
  intros Hr Hl Hrt Hleft Hright.
  unfold DoSub, DoMul. rewrite Hr, Hl, Hrt.
  unfold bind, get, DCHECK, CHECK, ret. simpl.
  rewrite Hleft. simpl. rewrite Hright. split; reflexivity.
Qed.

(* ================================================================== *)
(** * Further properties of the builder *)

(* ------------------------------------------------------------------ *)
(** ** Block handles *)

Lemma UseBlock_known b bb s :
  llvm_basic_block (store s) b = Some bb -> UseBlock b s = Done (bb, s).
Proof. intros H. unfold UseBlock, bind, get. rewrite H. reflexivity. Qed.

Lemma UseBlock_new b s :
  llvm_basic_block (store s) b = None ->
  UseBlock b s
  = Done (created_blocks (target s),
          with_store (store_llvm_basic_block b
                        (Some (created_blocks (target s))))
            (with_target (fun t =>
               mkTarget (S (created_blocks t)) (inserted t)
                        (created_modules t) (added_modules t)) s)).
Proof. intros H. unfold UseBlock, bind, get. rewrite H. reflexivity. Qed.

(** X1: [Use] on a block always returns; the handle it returns is the
    one the block holds afterwards, and asking again returns the same
    handle and changes nothing.  A native block is created only when the
    block held none: if it held one, that one is returned and the state
    is untouched.  No other block's handle changes. *)
Theorem UseBlock_memoizes (b : BlockId) (s : State) :
  exists bb s1,
    UseBlock b s = Done (bb, s1) /\
    llvm_basic_block (store s1) b = Some bb /\
    UseBlock b s1 = Done (bb, s1) /\
    (forall x, llvm_basic_block (store s) b = Some x -> bb = x /\ s1 = s) /\
    (llvm_basic_block (store s) b = None ->
     created_blocks (target s1) = S (created_blocks (target s))) /\
    (forall b', b' <> b ->
       llvm_basic_block (store s1) b' = llvm_basic_block (store s) b') /\
    inserted (target s1) = inserted (target s) /\
    builder s1 = builder s.
Proof.
  destruct (llvm_basic_block (store s) b) as [bb |] eqn:H.
  - exists bb, s. rewrite (UseBlock_known _ _ _ H).
    repeat split; auto; congruence.
  - eexists. eexists. rewrite (UseBlock_new _ _ H).
    split; [reflexivity |].
    assert (Hb : forall g : nat -> option LBasicBlock,
               upd g b (Some (created_blocks (target s))) b
               = Some (created_blocks (target s)))
      by (intros g; unfold upd; rewrite Nat.eqb_refl; reflexivity).
    split; [simpl; apply Hb |].
    split; [apply UseBlock_known; simpl; apply Hb |].
    split; [intros x Hx; discriminate Hx |].
    split; [reflexivity |].
    split; [| split; reflexivity].
    intros b' Hb'. simpl. unfold upd.
    destruct (Nat.eqb_spec b' b); [contradiction | reflexivity].
Qed.

(** X2: the handles stay allocated and pairwise distinct across [Use] on
    a block: if every handle held was created in this function and no
    two blocks hold the same handle, the same is true afterwards; a
    newly created handle is none of the handles held before. *)
Theorem UseBlock_keeps_handles_distinct
  (b : BlockId) (s s1 : State) (bb : LBasicBlock) :
  handles_allocated s ->
  handles_distinct s ->
  UseBlock b s = Done (bb, s1) ->
  handles_allocated s1 /\
  handles_distinct s1 /\
  (llvm_basic_block (store s) b = None ->
   forall b' x, llvm_basic_block (store s) b' = Some x -> x <> bb).
Proof.
  intros Ha Hd H.
  destruct (llvm_basic_block (store s) b) as [x |] eqn:Hb.
  - rewrite (UseBlock_known _ _ _ Hb) in H. inversion H; subst.
    split; [exact Ha |]. split; [exact Hd |]. intros E. discriminate E.
  - rewrite (UseBlock_new _ _ Hb) in H. inversion H; subst. clear H.
    split; [| split].
    + intros b' x. simpl. unfold upd.
      destruct (Nat.eqb_spec b' b).
      * intros E. inversion E. lia.
      * intros E. specialize (Ha _ _ E). lia.
    + intros b1 b2 x. simpl. unfold upd.
      destruct (Nat.eqb_spec b1 b), (Nat.eqb_spec b2 b);
        intros E1 E2; subst; auto.
      * inversion E1; subst. specialize (Ha _ _ E2). lia.
      * inversion E2; subst. specialize (Ha _ _ E1). lia.
      * eapply Hd; eassumption.
    + intros _ b' x E. specialize (Ha _ _ E). lia.
Qed.

(** X2 on the start of a compilation: no block holds a handle; after
    resolving blocks 3 and 5 they hold the handles 0 and 1. *)
Lemma UseBlock_keeps_handles_distinct_witness :
  exists s1 s2,
    UseBlock 3%nat (initial_state []) = Done (0%nat, s1) /\
    UseBlock 5%nat s1 = Done (1%nat, s2) /\
    handles_allocated s2 /\ handles_distinct s2.
Proof.
  assert (Ha0 : handles_allocated (initial_state []))
    by (intros b bb E; discriminate E).
  assert (Hd0 : handles_distinct (initial_state []))
    by (intros b1 b2 bb E; discriminate E).
  eexists. eexists.
  split; [reflexivity |]. split; [reflexivity |].
  destruct (UseBlock_keeps_handles_distinct 3%nat (initial_state []) _ 0%nat
              Ha0 Hd0 eq_refl) as (Ha1 & Hd1 & _).
  destruct (UseBlock_keeps_handles_distinct 5%nat _ _ 1%nat
              Ha1 Hd1 eq_refl) as (Ha2 & Hd2 & _).
  split; assumption.
Defined.

(* ------------------------------------------------------------------ *)
(** ** Value handles *)

(** X3: [Use] on a value, whatever dispatcher it re-enters: when it
    returns [v], the value holds [v], and every later [Use] returns [v]
    again without visiting anything or changing the state.  A value that
    is not generated at its uses and holds no handle yet is a failed
    assertion, not a visit. *)
Theorem Use_memoizes
  (graph : HGraph) (Visit : HValueId -> M unit) (value : HValueId)
  (s : State) :
  (forall v s1,
     Use graph Visit value s = Done (v, s1) ->
     llvm_value (store s1) value = Some v /\
     forall Visit', Use graph Visit' value s1 = Done (v, s1)) /\
  (EmitAtUses (value_at graph value) = false ->
   llvm_value (store s) value = None ->
   Use graph Visit value s = Fatal DcheckFailed).
Proof.
  split.
  - intros v s1 H. unfold Use in H.
    apply bind_Done in H as (have & s0 & Hget & H).
    inversion Hget; subst have s0; clear Hget.
    apply bind_Done in H as (u & s2 & _ & H).
    apply bind_Done in H as (v' & s3 & Hget & H).
    inversion Hget; subst v' s3; clear Hget.
    apply bind_Done in H as (u' & s4 & Hd & H).
    destruct (llvm_value (store s2) value) as [x |] eqn:Hx;
      [| discriminate Hd].
    inversion Hd; subst s4. inversion H; subst.
    split; [exact Hx |].
    intros Visit'. apply Use_materialized. exact Hx.
  - intros He Hn. unfold Use, bind, get. rewrite He, Hn. simpl.
    rewrite Hn. reflexivity.
Qed.

(** X3 on [inc_graph]: the first [Use] of the constant 3 visits it; the
    second returns the same constant from the state the first left. *)
Lemma Use_memoizes_witness :
  exists s1,
    Use inc_graph (VisitInstruction true inc_graph 1%nat) 3%nat
        visiting_state = Done (ConstantInt64 1, s1) /\
    llvm_value (store visiting_state) 3%nat = None /\
    Use inc_graph (fun _ => die Unreachable) 3%nat s1
    = Done (ConstantInt64 1, s1).
Proof.
  eexists. split; [vm_compute; reflexivity |].
  split; [reflexivity |].
  apply (proj1 (Use_memoizes inc_graph (VisitInstruction true inc_graph 1%nat)
                  3%nat visiting_state)).
  vm_compute. reflexivity.
Defined.

(* ------------------------------------------------------------------ *)
(** ** The instruction loop *)

(** X7: the instruction loop of [DoBasicBlock] passes over the
    instructions generated at their uses: on every state it does what it
    does on the chain without them. *)
Theorem DoBasicBlock_instructions_skip_emit_at_uses
  (smi : bool) (graph : HGraph) (depth : nat) (chain : list HValueId)
  (s : State) :
  DoBasicBlock_instructions smi graph depth chain s
  = DoBasicBlock_instructions smi graph depth (eager graph chain) s.
Proof.
  revert s. induction chain as [| current rest IH]; intros s;
    [reflexivity |].
  unfold eager in *. simpl.
  destruct (EmitAtUses (value_at graph current)) eqn:He; simpl.
  - unfold bind at 1. unfold get at 1.
    destruct (is_aborted s) eqn:Ha.
    + rewrite DoBasicBlock_instructions_aborted by exact Ha. reflexivity.
    + unfold bind, ret. apply IH.
  - rewrite He. simpl. unfold bind, get.
    destruct (is_aborted s); [reflexivity |].
    destruct (VisitInstruction smi graph depth current s) as [[u s1] | f |];
      [apply IH | reflexivity | reflexivity].
Qed.

(* ------------------------------------------------------------------ *)
(** ** What a visit does not touch *)

Lemma untouched_by_visit_refl s : untouched_by_visit s s.
Proof. unfold untouched_by_visit. repeat split; reflexivity. Qed.

Lemma untouched_by_visit_trans a b c :
  untouched_by_visit a b -> untouched_by_visit b c -> untouched_by_visit a c.
Proof.
  unfold untouched_by_visit.
  intros (A1 & A2 & A3 & A4 & A5 & A6 & A7 & A8 & A9 & A10 & A11)
         (B1 & B2 & B3 & B4 & B5 & B6 & B7 & B8 & B9 & B10 & B11).
  repeat split; congruence.
Qed.

(** X4: a finished visit of an instruction, nested visits included,
    leaves alone the builder's [argument_count_], [current_block_],
    [next_block_], insertion block, function, module and chunk, every
    block's environment binding and outgoing argument count, and the
    session's modules: it writes value and block handles, inserts
    instructions, writes environment slots in place and may abort the
    unit, nothing else. *)
Theorem VisitInstruction_frame
  (smi : bool) (graph : HGraph) (depth : nat) (current : HValueId)
  (s s' : State) :
  VisitInstruction smi graph depth current s = Done (tt, s') ->
  untouched_by_visit s s'.
Proof.
  intros H.
  refine (keeps_VisitInstruction untouched_by_visit
            untouched_by_visit_refl untouched_by_visit_trans
            _ _ _ _ _ _ smi graph depth current s tt s' H);
    intros; unfold untouched_by_visit; simpl;
    repeat split; try reflexivity;
    match goal with
    | Hf : forall t, _ /\ _ |- _ => apply Hf
    end.
Qed.

(** X4 on [inc_graph]: the visit of the addition (which visits the
    constant 3 on the way) leaves the builder inserting into block 0,
    inside Hydrogen block 0. *)
Lemma VisitInstruction_frame_witness :
  exists s',
    VisitInstruction true inc_graph 2%nat 5%nat visiting_state
    = Done (tt, s') /\
    llvm_ir_builder_ (builder s') = Some 0%nat /\
    current_block_ (builder s') = Some 0%nat /\
    argument_count_ (builder s') = 0.
Proof.
  eexists. split; [vm_compute; reflexivity |].
  destruct (VisitInstruction_frame true inc_graph 2%nat 5%nat visiting_state
              _ ltac:(vm_compute; reflexivity))
    as (H1 & H2 & _ & H4 & _).
  split; [exact H4 |]. split; [exact H2 | exact H1].
Defined.

(* ------------------------------------------------------------------ *)
(** ** Jumps and dummy uses *)

(** X5: an instruction that is a control instruction with a known,
    non-null successor is never dispatched to its handler: whatever its
    opcode (so also [HGoto], whose handler is not implemented), its
    visit resolves the successor's native block, inserts one
    unconditional branch to it and nothing else, gives no value a
    handle and does not abort. *)
Theorem VisitInstruction_known_successor
  (smi : bool) (graph : HGraph) (depth : nat) (current : HValueId)
  (successor : BlockId) (s : State) (bb : LBasicBlock) :
  CanReplaceWithDummyUses (value_at graph current) = false ->
  IsControlInstruction (value_at graph current) = true ->
  KnownSuccessorBlock (value_at graph current) = Some (Some successor) ->
  llvm_ir_builder_ (builder s) = Some bb ->
  exists s' dest,
    VisitInstruction smi graph (S depth) current s = Done (tt, s') /\
    llvm_basic_block (store s') successor = Some dest /\
    (forall x, llvm_basic_block (store s) successor = Some x -> dest = x) /\
    inserted (target s') = inserted (target s) ++ [(Some bb, BrInst dest)] /\
    llvm_value (store s') = llvm_value (store s) /\
    builder s' = builder s.
Proof.
  intros Hd Hc Hk Hbb. simpl. unfold VisitInstruction_body.
  rewrite Hd, Hc, Hk.
  set (s2 := with_builder (set_current_instruction_ (Some current)) s).
  assert (Hbb2 : llvm_ir_builder_ (builder s2) = Some bb) by exact Hbb.
  destruct (llvm_basic_block (store s) successor) as [x |] eqn:Hx.
  - assert (Hx2 : llvm_basic_block (store s2) successor = Some x) by exact Hx.
    eexists. exists x.
    split.
    { unfold bind, get, modify, ret. fold s2.
      rewrite (UseBlock_known successor x s2 Hx2).
      unfold CreateBr. rewrite (Insert_eq _ _ bb Hbb2). reflexivity. }
    simpl. split; [exact Hx |]. split; [intros y Hy; congruence |].
    split; [reflexivity |]. split; [reflexivity |].
    destruct s as [[] ? ?]. reflexivity.
  - assert (Hx2 : llvm_basic_block (store s2) successor = None) by exact Hx.
    eexists. exists (created_blocks (target s)).
    split.
    { unfold bind, get, modify, ret. fold s2.
      rewrite (UseBlock_new successor s2 Hx2).
      unfold CreateBr. rewrite (Insert_eq _ _ bb); [reflexivity | exact Hbb]. }
    simpl. unfold upd. rewrite Nat.eqb_refl.
    split; [reflexivity |]. split; [intros y Hy; discriminate Hy |].
    split; [reflexivity |]. split; [reflexivity |].
    destruct s as [[] ? ?]. reflexivity.
Qed.

(** X5 on [diamond_graph]: instruction 5 is the jump of block 1 to block
    3; its opcode has no handler, and its visit is the branch to a newly
    created native block. *)
Lemma VisitInstruction_known_successor_witness :
  exists s',
    operation (value_at diamond_graph 5%nat) = HStub kGoto /\
    VisitInstruction true diamond_graph 1%nat 5%nat
      (with_builder (set_llvm_ir_builder_ (Some 7%nat)) (initial_state []))
    = Done (tt, s') /\
    inserted (target s') = [(Some 7%nat, BrInst 0%nat)] /\
    is_aborted s' = false.
Proof.
  destruct (VisitInstruction_known_successor true diamond_graph 0%nat 5%nat
              3%nat
              (with_builder (set_llvm_ir_builder_ (Some 7%nat))
                            (initial_state []))
              7%nat eq_refl eq_refl eq_refl eq_refl)
    as (s' & dest & Hrun & Hdest & _ & Hins & _ & Hb).
  exists s'. split; [reflexivity |]. split; [exact Hrun |].
  assert (E : dest = 0%nat).
  { pose proof Hrun as Hr. vm_compute in Hr. injection Hr as Hr.
    subst s'. vm_compute in Hdest. congruence. }
  subst dest. split; [exact Hins |].
  unfold is_aborted. rewrite Hb. reflexivity.
Defined.

Lemma at_most_aborted_refl s : at_most_aborted s s.
Proof. unfold at_most_aborted. auto. Qed.

Lemma at_most_aborted_trans a b c :
  at_most_aborted a b -> at_most_aborted b c -> at_most_aborted a c.
Proof.
  unfold at_most_aborted. intros (A1 & A2 & A3) (B1 & B2 & B3).
  repeat split; try congruence. auto.
Qed.

Lemma UNIMPLEMENTED_at_most_aborted : keeps at_most_aborted UNIMPLEMENTED.
Proof.
  apply keeps_modify. intros s. unfold at_most_aborted. simpl. auto.
Qed.

Lemma dummy_operands_at_most_aborted graph others :
  keeps at_most_aborted
    (for_each others (fun operand : HValueId =>
       if IsControlInstruction (value_at graph operand) then ret tt
       else UNIMPLEMENTED)).
Proof.
  apply keeps_for_each;
    [exact at_most_aborted_refl | exact at_most_aborted_trans |].
  intros operand. destruct (IsControlInstruction (value_at graph operand)).
  - apply keeps_ret. exact at_most_aborted_refl.
  - exact UNIMPLEMENTED_at_most_aborted.
Qed.

Lemma for_each_returns {A} (l : list A) (body : A -> M unit) :
  (forall x s, exists s', body x s = Done (tt, s')) ->
  forall s, exists s', for_each l body s = Done (tt, s').
Proof.
  intros Hb. induction l as [| x l IH]; intros s; simpl.
  - eexists. reflexivity.
  - destruct (Hb x s) as (s1 & H1). destruct (IH s1) as (s2 & H2).
    exists s2. rewrite (bind_eq _ _ _ _ _ H1). exact H2.
Qed.

(** X6: the visit of an instruction that can be replaced with dummy uses
    never reaches a handler: when it returns the unit is ABORTED, no value
    or block has a new handle, no environment is written and nothing is
    inserted.  It returns unless the instruction's first operand is a
    control instruction, which is a failed assertion. *)
Theorem VisitInstruction_dummy_uses
  (smi : bool) (graph : HGraph) (depth : nat) (current : HValueId)
  (s : State) :
  CanReplaceWithDummyUses (value_at graph current) = true ->
  (forall s',
     VisitInstruction smi graph (S depth) current s = Done (tt, s') ->
     status_ (builder s') = ABORTED /\
     store s' = store s /\ target s' = target s /\
     current_instruction_ (builder s') = current_instruction_ (builder s)) /\
  ((forall first rest,
      operands (value_at graph current) = first :: rest ->
      IsControlInstruction (value_at graph first) = false) ->
   exists s', VisitInstruction smi graph (S depth) current s = Done (tt, s')) /\
  (forall first rest,
     operands (value_at graph current) = first :: rest ->
     IsControlInstruction (value_at graph first) = true ->
     VisitInstruction smi graph (S depth) current s = Fatal DcheckFailed).
Proof.
  intros Hd. simpl. unfold VisitInstruction_body. rewrite Hd.
  split; [| split].
  - intros s' H.
    apply bind_Done in H as (old & s1 & Hget & H).
    inversion Hget; subst old s1; clear Hget.
    apply bind_Done in H as (u2 & s2 & H2 & H).
    inversion H2; subst u2 s2; clear H2.
    apply bind_Done in H as (u3 & s3 & H3 & H).
    inversion H; subst s'; clear H.
    assert (Hs3 : at_most_aborted
                    (with_builder (set_status_ ABORTED)
                       (with_builder (set_current_instruction_ (Some current))
                          s)) s3).
    { destruct (operands (value_at graph current)) as [| first others].
      - inversion H3; subst. apply at_most_aborted_refl.
      - apply bind_Done in H3 as (u4 & s4 & H4 & H3).
        destruct (IsControlInstruction (value_at graph first));
          [discriminate H4 |].
        inversion H4; subst u4 s4; clear H4.
        apply bind_Done in H3 as (u5 & s5 & H5 & H3).
        inversion H5; subst u5 s5; clear H5.
        exact (dummy_operands_at_most_aborted graph others _ _ _ H3). }
    destruct Hs3 as (Hst & Ht & Ha).
    split; [apply is_aborted_status; apply (Ha eq_refl) |].
    split; [exact Hst |]. split; [exact Ht | reflexivity].
  - intros Hfirst.
    destruct (operands (value_at graph current)) as [| first others] eqn:Ho.
    + eexists. reflexivity.
    + rewrite (Hfirst first others eq_refl). simpl.
      unfold bind at 1. unfold get at 1.
      unfold bind at 1. unfold modify at 1.
      unfold bind at 1. unfold bind at 1. unfold ret at 1.
      unfold bind at 1. unfold UNIMPLEMENTED at 1. unfold modify at 1.
      match goal with
      | |- exists s', match for_each ?l ?f ?st with _ => _ end = _ =>
          destruct (for_each_returns l f
                      ltac:(intros x st'; cbv beta;
                            destruct (IsControlInstruction (value_at graph x));
                            eexists; reflexivity) st) as (s3 & H3);
            rewrite H3
      end.
      eexists. reflexivity.
  - intros first rest Ho Hc. rewrite Ho, Hc. reflexivity.
Qed.

(** X6 on [dummy_use_graph]: the visit of instruction 0 returns with the
    unit ABORTED and nothing inserted. *)
Lemma VisitInstruction_dummy_uses_witness :
  exists s',
    VisitInstruction true dummy_use_graph 1%nat 0%nat
      (with_builder (set_status_ BUILDING) (initial_state []))
    = Done (tt, s') /\
    status_ (builder s') = ABORTED /\
    inserted (target s') = [].
Proof.
  destruct (VisitInstruction_dummy_uses true dummy_use_graph 0%nat 0%nat
              (with_builder (set_status_ BUILDING) (initial_state []))
              eq_refl)
    as (Hall & Hret & _).
  destruct Hret as (s' & Hrun).
  { intros first rest Ho. injection Ho as <- _. reflexivity. }
  exists s'. split; [exact Hrun |].
  destruct (Hall s' Hrun) as (Hs & _ & Ht & _).
  split; [exact Hs |]. rewrite Ht. reflexivity.
Defined.

(* ------------------------------------------------------------------ *)
(** ** Parameters, in and out of range *)

Lemma DoParameter_eq graph instr i s f :
  function_ (builder s) = Some f ->
  DoParameter graph instr i s
  = Done (tt, with_store
                (store_llvm_value instr
                   (Some (Argument
                            (Z.to_nat (num_parameters (info graph) + 2 - i)))))
                s).
Proof.
  intros Hf. unfold DoParameter, bind, get, deref, set_llvm_value, modify.
  rewrite Hf. unfold ret. rewrite advance_closed.
  replace (0 + Z.to_nat (- i + (num_parameters (info graph) + 3) - 1))%nat
    with (Z.to_nat (num_parameters (info graph) + 2 - i)) by lia.
  reflexivity.
Qed.

(** X9: with [N] declared parameters, [N + 3] and the index [i] in the
    range of [int] as the code's counters are, [DoParameter] binds index
    [i] to the native argument [N + 2 - i] counted from the front, for
    the receiver and the declared parameters ([0 <= i <= N]) an argument
    behind the two hidden ones; every index from [N + 2] up to the
    largest [int] is bound to argument 0, the context.  Two indices
    between 0 and [N + 2] that are bound alike are the same index. *)
Theorem DoParameter_positions
  (graph : HGraph) (instr : HValueId) (s : State) (f : LFunction) :
  function_ (builder s) = Some f ->
  0 <= num_parameters (info graph) ->
  num_parameters (info graph) + 3 < 2 ^ 31 ->
  let N := num_parameters (info graph) in
  (forall i,
     0 <= i < 2 ^ 31 ->
     exists p,
       DoParameter graph instr i s
       = Done (tt, with_store (store_llvm_value instr (Some (Argument p))) s)
       /\ (i <= N -> Z.of_nat p = N + 2 - i /\ 2 <= Z.of_nat p)
       /\ (N + 2 <= i -> p = 0%nat)) /\
  (forall i j,
     0 <= i <= N + 2 -> 0 <= j <= N + 2 ->
     DoParameter graph instr i s = DoParameter graph instr j s ->
     i = j).
Proof.
  intros Hf H0 Hint N. split.
  - intros i Hi. exists (Z.to_nat (N + 2 - i)).
    split; [apply (DoParameter_eq graph instr i s f Hf) |].
    split; intros Hi'; lia.
  - intros i j Hi Hj E.
    rewrite !(DoParameter_eq graph instr _ s f Hf) in E.
    injection E as E.
    apply (f_equal (fun g => g instr)) in E.
    unfold upd in E. rewrite Nat.eqb_refl in E.
    injection E as E. fold N in E. lia.
Qed.

(** X9 on [inc_graph] ([N = 1], four native arguments): the declared
    parameter (index 1) is argument 2; index 3 falls on argument 0. *)
Lemma DoParameter_positions_witness :
  DoParameter inc_graph 2%nat 1 entered_state
  = Done (tt, with_store (store_llvm_value 2%nat (Some (Argument 2)))
                entered_state) /\
  DoParameter inc_graph 2%nat 3 entered_state
  = Done (tt, with_store (store_llvm_value 2%nat (Some (Argument 0)))
                entered_state).
Proof.
  pose proof (DoParameter_positions inc_graph 2%nat entered_state _ eq_refl
                ltac:(vm_compute; congruence) ltac:(vm_compute; reflexivity))
    as (Hp & _).
  split.
  - destruct (Hp 1 ltac:(lia)) as (p & -> & Hin & _).
    destruct Hin as (E & _); [vm_compute; congruence |].
    replace p with 2%nat
      by (change (num_parameters (info inc_graph)) with 1 in E; lia).
    reflexivity.
  - destruct (Hp 3 ltac:(lia)) as (p & -> & _ & Hout).
    rewrite Hout by (vm_compute; congruence). reflexivity.
Defined.

(* ------------------------------------------------------------------ *)
(** ** Constants and arithmetic on tagged words *)

Lemma getInt64_eq x s bb :
  llvm_ir_builder_ (builder s) = Some bb ->
  getInt64 x s = Done (ConstantInt64 (wrap64 x), s).
Proof. intros H. unfold getInt64, bind, get. rewrite H. reflexivity. Qed.

Lemma wrap64_idempotent z : wrap64 (wrap64 z) = wrap64 z.
Proof. unfold wrap64. apply Z.mod_mod. lia. Qed.

Lemma wrap64_shiftl_wrap64 z k :
  0 <= k -> wrap64 (Z.shiftl (wrap64 z) k) = wrap64 (Z.shiftl z k).
Proof.
  intros Hk. unfold wrap64. rewrite !Z.shiftl_mul_pow2 by exact Hk.
  apply Z.mul_mod_idemp_l. lia.
Qed.

Lemma kSmiShift_nonnegative smi : 0 <= kSmiShift smi.
Proof. destruct smi; simpl; lia. Qed.

(** X10: a constant of Smi representation is materialized as the very
    word that tagging the same number's Integer32 constant computes:
    [DoConstant] on the Smi constant [n] gives the constant
    [n << kSmiShift], and [Integer32ToSmi] of the Integer32 constant [n]
    evaluates to that word.  Materializing a constant inserts no
    instruction. *)
Theorem DoConstant_Smi_agrees_with_Integer32ToSmi
  (smi : bool) (graph : HGraph) (Visit : HValueId -> M unit)
  (c1 c2 : HValueId) (n : Z) (h1 h2 : bool) (w1 w2 : Z)
  (s : State) (bb : LBasicBlock) :
  llvm_ir_builder_ (builder s) = Some bb ->
  representation (value_at graph c1) = kSmi ->
  representation (value_at graph c2) = kInteger32 ->
  exists s1 s2 s3 tagged,
    DoConstant smi graph c1 n h1 w1 s = Done (tt, s1) /\
    llvm_value (store s1) c1
    = Some (ConstantInt64 (wrap64 (Z.shiftl n (kSmiShift smi)))) /\
    inserted (target s1) = inserted (target s) /\
    DoConstant smi graph c2 n h2 w2 s = Done (tt, s2) /\
    llvm_value (store s2) c2 = Some (ConstantInt64 (wrap64 n)) /\
    inserted (target s2) = inserted (target s) /\
    Integer32ToSmi smi graph Visit c2 s2 = Done (tagged, s3) /\
    forall args,
      eval args tagged = Some (wrap64 (Z.shiftl n (kSmiShift smi))) /\
      eval args (ConstantInt64 (wrap64 (Z.shiftl n (kSmiShift smi))))
      = eval args tagged.
Proof.
  intros Hbb H1 H2.
  set (s2 := with_store (store_llvm_value c2 (Some (ConstantInt64 (wrap64 n))))
               s).
  assert (Hv2 : llvm_value (store s2) c2 = Some (ConstantInt64 (wrap64 n)))
    by (simpl; unfold upd; rewrite Nat.eqb_refl; reflexivity).
  assert (Hbb2 : llvm_ir_builder_ (builder s2) = Some bb) by exact Hbb.
  eexists. exists s2. eexists. eexists.
  split.
  { unfold DoConstant. rewrite H1. simpl.
    rewrite (bind_eq _ _ _ _ _ (getInt64_eq _ _ _ Hbb)). reflexivity. }
  split; [simpl; unfold upd; rewrite Nat.eqb_refl; reflexivity |].
  split; [reflexivity |].
  split.
  { unfold DoConstant. rewrite H2. simpl.
    rewrite (bind_eq _ _ _ _ _ (getInt64_eq _ _ _ Hbb)). reflexivity. }
  split; [exact Hv2 |]. split; [reflexivity |].
  split.
  { unfold Integer32ToSmi.
    rewrite (bind_eq _ _ _ _ _ (Use_materialized graph Visit c2 s2 _ Hv2)).
    unfold CreateShl. apply (Insert_eq _ _ _ Hbb2). }
  intros args.
  assert (E : eval args (ShlInst (ConstantInt64 (wrap64 n)) (kSmiShift smi))
              = Some (wrap64 (Z.shiftl n (kSmiShift smi)))).
  { simpl. rewrite wrap64_idempotent.
    rewrite wrap64_shiftl_wrap64 by apply kSmiShift_nonnegative.
    reflexivity. }
  split; [exact E |]. rewrite E. simpl. rewrite wrap64_idempotent.
  reflexivity.
Qed.

(** X10 on [round_trip_graph]: the Integer32 constant [-1] (instruction
    0), tagged, is the word with all ones in the high half, the word a
    Smi constant [-1] is given. *)
Lemma DoConstant_Smi_agrees_with_Integer32ToSmi_witness :
  exists s2 s3 tagged,
    DoConstant true round_trip_graph 0%nat (-1) false 0
      (with_builder (set_llvm_ir_builder_ (Some 0%nat)) (initial_state []))
    = Done (tt, s2) /\
    Integer32ToSmi true round_trip_graph (fun _ => die Unreachable) 0%nat s2
    = Done (tagged, s3) /\
    eval (fun _ => 0) tagged = Some (2 ^ 64 - 2 ^ 32).
Proof.
  destruct (DoConstant_Smi_agrees_with_Integer32ToSmi
              true
              (mkHGraph (info round_trip_graph) (blocks round_trip_graph)
                 (block_at round_trip_graph)
                 (fun v => match v with
                           | 1%nat => instruction HStackCheck kSmi 0%nat
                           | _ => value_at round_trip_graph v
                           end)
                 0%nat 9%nat)
              (fun _ => die Unreachable) 1%nat 0%nat (-1) false false 0 0
              (with_builder (set_llvm_ir_builder_ (Some 0%nat))
                            (initial_state []))
              0%nat eq_refl eq_refl eq_refl)
    as (s1 & s2 & s3 & tagged & _ & _ & _ & H2 & _ & _ & H3 & He).
  exists s2, s3, tagged.
  split; [exact H2 |]. split; [exact H3 |].
  rewrite (proj1 (He (fun _ => 0))). reflexivity.
Defined.

Lemma arithmetic_runs graph Visit instr left right s l r bb m :
  IsInteger32 (representation (value_at graph instr))
  || IsSmi (representation (value_at graph instr)) = true ->
  Representation_Equals (representation (value_at graph left))
                        (representation (value_at graph instr)) = true ->
  Representation_Equals (representation (value_at graph right))
                        (representation (value_at graph instr)) = true ->
  llvm_value (store s) left = Some l ->
  llvm_value (store s) right = Some r ->
  llvm_ir_builder_ (builder s) = Some bb ->
  module_ (builder s) = Some m ->
  let emitted (x : LValue) :=
    Done (tt, with_store (store_llvm_value instr (Some x))
                (with_target (fun t =>
                   mkTarget (created_blocks t) (inserted t ++ [(Some bb, x)])
                            (created_modules t) (added_modules t)) s)) in
  DoAdd graph Visit instr left right s = emitted (AddInst l r) /\
  DoSub graph instr left right s = emitted (SubInst l r) /\
  DoMul graph instr left right s = emitted (MulInst l r).
Proof.
  intros Hr Hl Hrt Hleft Hright Hbb Hm emitted.
  assert (Hend : forall i x s1,
             module_ (builder s1) = Some m ->
             (set_llvm_value i (Some x) ;; print_module)%builder s1
             = Done (tt, with_store (store_llvm_value i (Some x)) s1)).
  { intros i x s1 H1.
    unfold print_module, set_llvm_value, bind, modify, get. simpl.
    rewrite H1. reflexivity. }
  split; [| split].
  - unfold DoAdd. rewrite Hr, Hl, Hrt. simpl.
    unfold bind at 1. unfold ret at 1. unfold bind at 1. unfold ret at 1.
    rewrite (bind_eq _ _ _ _ _ (Use_materialized graph Visit left s l Hleft)).
    rewrite (bind_eq _ _ _ _ _ (Use_materialized graph Visit right s r Hright)).
    unfold CreateAdd. rewrite (bind_eq _ _ _ _ _ (Insert_eq _ _ _ Hbb)).
    apply Hend. exact Hm.
  - unfold DoSub. rewrite Hr, Hl, Hrt. simpl.
    unfold bind, get, CHECK, ret. simpl. rewrite Hleft. simpl.
    rewrite Hright. simpl.
    unfold CreateSub. rewrite (Insert_eq _ _ _ Hbb).
    unfold set_llvm_value, print_module, modify, bind, get, deref, ret.
    simpl. rewrite Hm. reflexivity.
  - unfold DoMul. rewrite Hr, Hl, Hrt. simpl.
    unfold bind, get, CHECK, ret. simpl. rewrite Hleft. simpl.
    rewrite Hright. simpl.
    unfold CreateMul. rewrite (Insert_eq _ _ _ Hbb).
    unfold set_llvm_value, print_module, modify, bind, get, deref, ret.
    simpl. rewrite Hm. reflexivity.
Qed.

(** X11: for an Integer32 or Smi instruction whose operands have their
    values (of the same representation), in a builder that has its
    insertion block and its module, [DoAdd], [DoSub] and [DoMul] insert
    one 64-bit [add], [sub], [mul] of the two values and memoize it, so
    the result is the sum, difference, product of the operands' words
    modulo 2^64.  On Smi operands, the tagged words of [a] and [b]
    under 32-bit Smi values, the sum and the difference are the tagged
    words of [a + b] and [a - b]; the product is the zero word, whatever
    [a] and [b] are. *)
Theorem arithmetic_on_words
  (graph : HGraph) (Visit : HValueId -> M unit)
  (instr left right : HValueId) (s : State) (l r : LValue)
  (bb : LBasicBlock) (m : nat) (args : nat -> Z) (x y : Z) :
  IsInteger32 (representation (value_at graph instr))
  || IsSmi (representation (value_at graph instr)) = true ->
  Representation_Equals (representation (value_at graph left))
                        (representation (value_at graph instr)) = true ->
  Representation_Equals (representation (value_at graph right))
                        (representation (value_at graph instr)) = true ->
  llvm_value (store s) left = Some l ->
  llvm_value (store s) right = Some r ->
  llvm_ir_builder_ (builder s) = Some bb ->
  module_ (builder s) = Some m ->
  eval args l = Some x ->
  eval args r = Some y ->
  word_after (DoAdd graph Visit instr left right s) args instr
  = Some (wrap64 (x + y)) /\
  word_after (DoSub graph instr left right s) args instr
  = Some (wrap64 (x - y)) /\
  word_after (DoMul graph instr left right s) args instr
  = Some (wrap64 (x * y)) /\
  (forall a b,
     x = wrap64 (Z.shiftl a (kSmiShift true)) ->
     y = wrap64 (Z.shiftl b (kSmiShift true)) ->
     wrap64 (x + y) = wrap64 (Z.shiftl (a + b) (kSmiShift true)) /\
     wrap64 (x - y) = wrap64 (Z.shiftl (a - b) (kSmiShift true)) /\
     wrap64 (x * y) = 0).
Proof.
  intros Hr Hl Hrt Hleft Hright Hbb Hm Hx Hy.
  destruct (arithmetic_runs graph Visit instr left right s l r bb m
              Hr Hl Hrt Hleft Hright Hbb Hm) as (Hadd & Hsub & Hmul).
  assert (Hup : forall g : nat -> option LValue, forall v,
             upd g instr (Some v) instr = Some v)
    by (intros g v; unfold upd; rewrite Nat.eqb_refl; reflexivity).
  split; [| split; [| split]].
  - rewrite Hadd. simpl. rewrite Hup. simpl. rewrite Hx, Hy. reflexivity.
  - rewrite Hsub. simpl. rewrite Hup. simpl. rewrite Hx, Hy. reflexivity.
  - rewrite Hmul. simpl. rewrite Hup. simpl. rewrite Hx, Hy. reflexivity.
  - intros a b -> ->. unfold wrap64, kSmiShift.
    rewrite !Z.shiftl_mul_pow2 by lia.
    split; [| split].
    + rewrite <- Z.add_mod by lia. f_equal. ring.
    + rewrite <- Zminus_mod. f_equal. ring.
    + rewrite <- Z.mul_mod by lia.
      replace (a * 2 ^ 32 * (b * 2 ^ 32)) with (a * b * 2 ^ 64)
        by (change (2 ^ 64) with (2 ^ 32 * 2 ^ 32); ring).
      apply Z.mod_mul. lia.
Qed.

(** X11 on [arithmetic_graph], once the constant 3 is materialized: with
    7 as the parameter's word, the subtraction (instruction 6) computes
    6 and the multiplication (instruction 7) computes 7. *)
Lemma arithmetic_on_words_witness :
  word_after (DoSub arithmetic_graph 6%nat 4%nat 3%nat
                (with_store (store_llvm_value 3%nat (Some (ConstantInt64 1)))
                            visiting_state))
             (fun _ => 7 * 2 ^ 32) 6%nat = Some 6 /\
  word_after (DoMul arithmetic_graph 7%nat 4%nat 3%nat
                (with_store (store_llvm_value 3%nat (Some (ConstantInt64 1)))
                            visiting_state))
             (fun _ => 7 * 2 ^ 32) 7%nat = Some 7.
Proof.
  split.
  - apply (proj1 (proj2
             (arithmetic_on_words arithmetic_graph (fun _ => die Unreachable)
                6%nat 4%nat 3%nat
                (with_store (store_llvm_value 3%nat (Some (ConstantInt64 1)))
                            visiting_state)
                (LShrInst (Argument 2) 32) (ConstantInt64 1) 0%nat 0%nat
                (fun _ => 7 * 2 ^ 32) 7 1
                eq_refl eq_refl eq_refl eq_refl eq_refl eq_refl eq_refl
                eq_refl eq_refl))).
  - apply (proj1 (proj2 (proj2
             (arithmetic_on_words arithmetic_graph (fun _ => die Unreachable)
                7%nat 4%nat 3%nat
                (with_store (store_llvm_value 3%nat (Some (ConstantInt64 1)))
                            visiting_state)
                (LShrInst (Argument 2) 32) (ConstantInt64 1) 0%nat 0%nat
                (fun _ => 7 * 2 ^ 32) 7 1
                eq_refl eq_refl eq_refl eq_refl eq_refl eq_refl eq_refl
                eq_refl eq_refl)))).
Defined.

(* ------------------------------------------------------------------ *)
(** ** Return *)



(* ------------------------------------------------------------------ *)
(** ** Representation changes off the matrix *)

(** X14: [DoChange] outside the four numeric transitions.  From a
    representation that is none of Smi, tagged, double, Integer32 it does
    nothing at all: no handle, no abort.  From Smi to anything but
    tagged it does what it does from tagged.  Integer32 to Smi is
    [UNIMPLEMENTED()].  From tagged to anything but double, Smi or
    Integer32 fails the assertion [DCHECK(to.IsInteger32())].  With
    31-bit Smi values, tagged to Integer32 aborts the unit and stores a
    null handle. *)
Theorem DoChange_off_the_matrix
  (smi : bool) (graph : HGraph) (Visit : HValueId -> M unit)
  (instr val : HValueId) (s : State) :
  (forall from to,
     In from [kNone; kExternal] ->
     DoChange smi graph Visit instr val from to s = Done (tt, s)) /\
  (forall to,
     to <> kTagged ->
     DoChange smi graph Visit instr val kSmi to s
     = DoChange smi graph Visit instr val kTagged to s) /\
  DoChange smi graph Visit instr val kInteger32 kSmi s = UNIMPLEMENTED s /\
  (forall to,
     In to [kNone; kTagged; kExternal] ->
     DoChange smi graph Visit instr val kTagged to s = Fatal DcheckFailed) /\
  DoChange false graph Visit instr val kTagged kInteger32 s
  = Done (tt, with_store (store_llvm_value instr None)
                (with_builder (set_status_ ABORTED) s)).
Proof.
  split; [| split; [| split; [| split]]].
  - intros from to [<- | [<- | []]]; reflexivity.
  - intros to Hto. destruct to; try reflexivity. contradiction.
  - reflexivity.
  - intros to [<- | [<- | [<- | []]]]; reflexivity.
  - unfold DoChange, SmiToInteger32. simpl.
    destruct (type_IsSmi (value_at graph val)
              || IsSmi (representation (value_at graph val))); reflexivity.
Qed.

(* ------------------------------------------------------------------ *)
(** ** Compare and branch *)

Lemma UseBlock_run b s :
  exists bb s1,
    UseBlock b s = Done (bb, s1) /\
    llvm_basic_block (store s1) b = Some bb /\
    builder s1 = builder s /\
    llvm_value (store s1) = llvm_value (store s) /\
    inserted (target s1) = inserted (target s) /\
    (forall b' x, llvm_basic_block (store s) b' = Some x ->
                  llvm_basic_block (store s1) b' = Some x).
Proof.
  destruct (llvm_basic_block (store s) b) as [bb |] eqn:H.
  - exists bb, s. rewrite (UseBlock_known _ _ _ H). repeat split; auto.
  - eexists. eexists. rewrite (UseBlock_new _ _ H).
    split; [reflexivity |].
    split; [simpl; unfold upd; rewrite Nat.eqb_refl; reflexivity |].
    split; [reflexivity |]. split; [reflexivity |]. split; [reflexivity |].
    intros b' x Hx. simpl. unfold upd.
    destruct (Nat.eqb_spec b' b); [subst; congruence | exact Hx].
Qed.

(** X12: [DoCompareNumericAndBranch], the operands being of the
    instruction's representation.  On Integer32 operands that have their
    values it inserts the comparison, with the predicate of the token
    (unsigned when either operand is flagged uint32), and then the
    two-way branch on it to the native blocks of the two successors,
    which both hold a handle afterwards; the branch is memoized as the
    instruction's value and the unit is not aborted.  The predicate is
    looked up first: [IN] and [INSTANCEOF] are fatal in every
    representation.  With a relational token, Smi and double are
    [UNIMPLEMENTED()] and nothing else. *)
Theorem DoCompareNumericAndBranch_cases
  (graph : HGraph) (Visit : HValueId -> M unit)
  (instr : HValueId) (token : Token) (left right : HValueId)
  (if_true if_false : BlockId) (s : State) :
  Representation_Equals (representation (value_at graph left))
                        (representation (value_at graph instr)) = true ->
  Representation_Equals (representation (value_at graph right))
                        (representation (value_at graph instr)) = true ->
  let is_unsigned :=
    IsDouble (representation (value_at graph instr))
    || kUint32 (value_at graph left) || kUint32 (value_at graph right) in
  let run :=
    DoCompareNumericAndBranch graph Visit instr token left right
                              if_true if_false s in
  (forall l r bb pred,
     representation (value_at graph instr) = kInteger32 ->
     llvm_value (store s) left = Some l ->
     llvm_value (store s) right = Some r ->
     llvm_ir_builder_ (builder s) = Some bb ->
     TokenToPredicate token is_unsigned = Done pred ->
     exists s' t f,
       run = Done (tt, s') /\
       llvm_basic_block (store s') if_true = Some t /\
       llvm_basic_block (store s') if_false = Some f /\
       (forall x, llvm_basic_block (store s) if_true = Some x -> t = x) /\
       llvm_value (store s') instr
       = Some (CondBrInst (ICmpInst pred l r) t f) /\
       inserted (target s')
       = inserted (target s)
         ++ [(Some bb, ICmpInst pred l r);
             (Some bb, CondBrInst (ICmpInst pred l r) t f)] /\
       builder s' = builder s) /\
  (In token [IN; INSTANCEOF] -> run = Fatal Unreachable) /\
  (forall pred,
     TokenToPredicate token is_unsigned = Done pred ->
     In (representation (value_at graph instr)) [kSmi; kDouble] ->
     run = UNIMPLEMENTED s).
Proof.
  intros Hl Hr is_unsigned run. unfold run, DoCompareNumericAndBranch.
  rewrite Hl, Hr. fold is_unsigned.
  split; [| split].
  - intros l r bb pred Hrep Hleft Hright Hbb Hpred.
    rewrite Hpred, Hrep. simpl.
    unfold bind at 1. unfold ret at 1. unfold bind at 1. unfold ret at 1.
    unfold bind at 1. unfold lift at 1.
    rewrite (bind_eq _ _ _ _ _ (Use_materialized graph Visit left s l Hleft)).
    rewrite (bind_eq _ _ _ _ _ (Use_materialized graph Visit right s r Hright)).
    unfold CreateICmp. rewrite (bind_eq _ _ _ _ _ (Insert_eq _ _ _ Hbb)).
    match goal with
    | |- context [bind (UseBlock if_true) _ ?st] => set (sA := st)
    end.
    destruct (UseBlock_run if_true sA)
      as (t & sB & HB & HtB & HbB & HvB & HiB & HmB).
    destruct (UseBlock_run if_false sB)
      as (f & sC & HC & HfC & HbC & HvC & HiC & HmC).
    rewrite (bind_eq _ _ _ _ _ HB), (bind_eq _ _ _ _ _ HC).
    assert (HbbC : llvm_ir_builder_ (builder sC) = Some bb)
      by (rewrite HbC, HbB; exact Hbb).
    unfold CreateCondBr. rewrite (bind_eq _ _ _ _ _ (Insert_eq _ _ _ HbbC)).
    eexists. exists t, f.
    split; [reflexivity |]. simpl.
    split; [apply HmC; exact HtB |].
    split; [exact HfC |].
    split.
    { intros x Hx. specialize (HmB if_true x Hx). congruence. }
    split; [unfold upd; rewrite Nat.eqb_refl; reflexivity |].
    split; [rewrite HiC, HiB; simpl; rewrite <- app_assoc; reflexivity |].
    rewrite HbC, HbB. reflexivity.
  - intros [<- | [<- | []]]; reflexivity.
  - intros pred Hpred [E | [E | []]]; rewrite Hpred, <- E; reflexivity.
Qed.

(** X12 on [diamond_graph]: the branch of block 0 (instruction 3), its
    two constant operands materialized, inserts a signed less-than and
    the branch to two new native blocks. *)
Lemma DoCompareNumericAndBranch_cases_witness :
  exists s',
    DoCompareNumericAndBranch diamond_graph
      (VisitInstruction true diamond_graph 1%nat) 3%nat LT 1%nat 2%nat
      1%nat 2%nat
      (with_store (store_llvm_value 1%nat (Some (ConstantInt64 1)))
         (with_store (store_llvm_value 2%nat (Some (ConstantInt64 2)))
            (with_builder (set_llvm_ir_builder_ (Some 0%nat))
                          (initial_state []))))
    = Done (tt, s') /\
    inserted (target s')
    = [(Some 0%nat, ICmpInst ICMP_SLT (ConstantInt64 1) (ConstantInt64 2));
       (Some 0%nat,
        CondBrInst (ICmpInst ICMP_SLT (ConstantInt64 1) (ConstantInt64 2))
                   0%nat 1%nat)].
Proof.
  destruct (proj1 (DoCompareNumericAndBranch_cases diamond_graph
                     (VisitInstruction true diamond_graph 1%nat) 3%nat LT
                     1%nat 2%nat 1%nat 2%nat
                     (with_store (store_llvm_value 1%nat
                                    (Some (ConstantInt64 1)))
                        (with_store (store_llvm_value 2%nat
                                       (Some (ConstantInt64 2)))
                           (with_builder (set_llvm_ir_builder_ (Some 0%nat))
                                         (initial_state []))))
                     eq_refl eq_refl)
              (ConstantInt64 1) (ConstantInt64 2) 0%nat ICMP_SLT
              eq_refl eq_refl eq_refl eq_refl eq_refl)
    as (s' & t & f & Hrun & _ & _ & _ & _ & _ & _).
  exists s'. split; [exact Hrun |].
  pose proof Hrun as Hr. vm_compute in Hr. injection Hr as Hr. subst s'.
  reflexivity.
Defined.

(* ------------------------------------------------------------------ *)
(** ** Shared and copied environments under simulation *)

Lemma single_predecessor_run graph b pred s e env :
  IsStartBlock (block_at graph b) = false ->
  predecessors (block_at graph b) = [pred] ->
  phis (block_at graph b) = [] ->
  last_environment (store s) pred = Some e ->
  nth_error (environments (store s)) e = Some env ->
  0 <= argument_count (store s) pred ->
  (SecondSuccessor (block_at graph pred) = None ->
   FirstSuccessor (block_at graph pred) = Some b) ->
  let copies :=
    match successors (block_at graph pred) with
    | first :: second :: _ => Nat.ltb b first || Nat.ltb b second
    | _ => false
    end in
  DoBasicBlock_environment graph b s
  = Done (tt,
          with_builder (set_argument_count_ (argument_count (store s) pred))
            (with_store
               (store_last_environment b
                  (Some (if copies then length (environments (store s))
                         else e)))
               (if copies
                then with_store
                       (store_environments (environments (store s) ++ [env]))
                       s
                else s))).
Proof.
  intros Hstart Hpred Hphis Hle He Hcount Hone copies.
  assert (Hge : (argument_count (store s) pred >=? 0) = true)
    by (apply Z.geb_le; exact Hcount).
  unfold DoBasicBlock_environment.
  rewrite Hstart, Hpred, Hphis. simpl.
  unfold bind at 1. simpl. unfold bind at 1. simpl.
  unfold bind at 1. unfold get at 1. rewrite Hle. simpl.
  unfold bind at 1. simpl. unfold bind at 1. simpl.
  unfold copies. unfold FirstSuccessor, SecondSuccessor in *.
  destruct (successors (block_at graph pred)) as [| first [| second rest]];
    simpl in *.
  - specialize (Hone eq_refl). discriminate Hone.
  - specialize (Hone eq_refl). injection Hone as ->.
    rewrite Nat.eqb_refl. simpl.
    unfold bind, UpdateEnvironment, modify, get, DCHECK,
      set_builder_argument_count, ret; simpl.
    rewrite Hge. reflexivity.
  - destruct (Nat.ltb b first || Nat.ltb b second) eqn:Hcopy.
    + unfold bind, ret. rewrite Hcopy, (HEnvironment_Copy_eq _ _ _ He).
      unfold UpdateEnvironment, modify, get, DCHECK,
        set_builder_argument_count, ret; simpl.
      rewrite Hge. reflexivity.
    + unfold bind, ret. rewrite Hcopy.
      unfold UpdateEnvironment, modify, get, DCHECK,
        set_builder_argument_count, ret; simpl.
      rewrite Hge. reflexivity.
Qed.

Lemma DoSimulate_eq instr replay s b e env :
  current_block_ (builder s) = Some b ->
  last_environment (store s) b = Some e ->
  nth_error (environments (store s)) e = Some env ->
  DoSimulate instr replay s
  = Done (tt, with_store
                (store_environments
                   (replace_at (environments (store s)) e (replay env))) s).
Proof.
  intros Hcb Hle He.
  unfold DoSimulate, bind, get, deref, environment, ret.
  rewrite Hcb. simpl. rewrite Hle. simpl.
  unfold bind, get. rewrite He. reflexivity.
Qed.

(** X15: a simulate replayed in a block with a single predecessor, right
    after the environment propagation: the block's environment object
    gets the replayed slots.  The object the predecessor ended in gets
    them too when the block shares it; when the block was given a copy
    (the predecessor has two successors, one of them numbered above the
    block), the predecessor's object keeps its slots. *)
Theorem DoSimulate_after_propagation
  (graph : HGraph) (b pred : BlockId) (instr : HValueId)
  (replay : HEnvironment -> HEnvironment) (s : State)
  (e : EnvRef) (env : HEnvironment) :
  IsStartBlock (block_at graph b) = false ->
  predecessors (block_at graph b) = [pred] ->
  phis (block_at graph b) = [] ->
  last_environment (store s) pred = Some e ->
  nth_error (environments (store s)) e = Some env ->
  0 <= argument_count (store s) pred ->
  (SecondSuccessor (block_at graph pred) = None ->
   FirstSuccessor (block_at graph pred) = Some b) ->
  current_block_ (builder s) = Some b ->
  let copies :=
    match successors (block_at graph pred) with
    | first :: second :: _ => Nat.ltb b first || Nat.ltb b second
    | _ => false
    end in
  exists s' e',
    (DoBasicBlock_environment graph b ;; DoSimulate instr replay) s
    = Done (tt, s') /\
    last_environment (store s') b = Some e' /\
    nth_error (environments (store s')) e' = Some (replay env) /\
    nth_error (environments (store s')) e
    = Some (if copies then env else replay env) /\
    inserted (target s') = inserted (target s).
Proof.
  intros Hstart Hpred Hphis Hle He Hcount Hone Hcb copies.
  pose proof (nth_error_in_range _ _ _ He) as Hrange.
  pose proof (single_predecessor_run graph b pred s e env
                Hstart Hpred Hphis Hle He Hcount Hone) as Hrun.
  fold copies in Hrun.
  rewrite (bind_eq _ _ _ _ _ Hrun).
  assert (Hup : forall (g : nat -> option EnvRef) x, upd g b x b = x)
    by (intros g x; unfold upd; rewrite Nat.eqb_refl; reflexivity).
  destruct copies.
  - eexists. exists (length (environments (store s))).
    split.
    { eapply DoSimulate_eq; simpl;
        [exact Hcb | apply Hup |].
      rewrite nth_error_app2, Nat.sub_diag by lia. reflexivity. }
    simpl. split; [apply Hup |].
    split; [apply nth_error_replace_at_eq; rewrite length_app; simpl; lia |].
    split; [| reflexivity].
    rewrite nth_error_replace_at_neq by lia.
    rewrite nth_error_app1 by lia. exact He.
  - eexists. exists e.
    split.
    { eapply DoSimulate_eq; simpl; [exact Hcb | apply Hup | exact He]. }
    simpl. split; [apply Hup |].
    split; [apply nth_error_replace_at_eq; exact Hrange |].
    split; [apply nth_error_replace_at_eq; exact Hrange | reflexivity].
Qed.

(** X15 on [diamond_graph], block 0 being done: a simulate in block 1,
    which got a copy, leaves block 0's environment as it was; the same
    simulate in block 2, which shares it, rewrites it. *)
Lemma DoSimulate_after_propagation_witness :
  exists s,
    (Build_prologue diamond_graph ;;
     DoBasicBlock true diamond_graph 3%nat 0%nat (Some 1%nat))
      (with_builder (fun _ => new_builder)
                    (initial_state [20; 21; 22]%nat)) = Done (tt, s) /\
    exists s1 s2,
      (DoBasicBlock_environment diamond_graph 1%nat ;;
       DoSimulate 9%nat (fun env => 30%nat :: env))
        (with_builder (set_current_block_ (Some 1%nat)) s) = Done (tt, s1) /\
      nth_error (environments (store s1)) 0 = Some [20; 21; 22]%nat /\
      (DoBasicBlock_environment diamond_graph 2%nat ;;
       DoSimulate 9%nat (fun env => 30%nat :: env))
        (with_builder (set_current_block_ (Some 2%nat)) s) = Done (tt, s2) /\
      nth_error (environments (store s2)) 0 = Some [30; 20; 21; 22]%nat.
Proof.
  eexists. split; [vm_compute; reflexivity |].
  match goal with
  | |- exists s1 s2, _ ?S1 = _ /\ _ /\ _ ?S2 = _ /\ _ =>
      destruct (DoSimulate_after_propagation diamond_graph 1%nat 0%nat 9%nat
                  (fun env => 30%nat :: env) S1 0%nat [20; 21; 22]%nat
                  eq_refl eq_refl eq_refl
                  ltac:(vm_compute; reflexivity)
                  ltac:(vm_compute; reflexivity)
                  ltac:(vm_compute; discriminate)
                  ltac:(intros H; discriminate H) eq_refl)
        as (s1 & e1 & Hrun1 & _ & _ & Hold1 & _);
      destruct (DoSimulate_after_propagation diamond_graph 2%nat 0%nat 9%nat
                  (fun env => 30%nat :: env) S2 0%nat [20; 21; 22]%nat
                  eq_refl eq_refl eq_refl
                  ltac:(vm_compute; reflexivity)
                  ltac:(vm_compute; reflexivity)
                  ltac:(vm_compute; discriminate)
                  ltac:(intros H; discriminate H) eq_refl)
        as (s2 & e2 & Hrun2 & _ & _ & Hold2 & _)
  end.
  exists s1, s2.
  split; [exact Hrun1 |]. split; [exact Hold1 |].
  split; [exact Hrun2 | exact Hold2].
Defined.

(* ------------------------------------------------------------------ *)
(** ** Bookkeeping of the block driver *)

Lemma untouched_by_propagation_refl s : untouched_by_propagation s s.
Proof. unfold untouched_by_propagation. repeat split; reflexivity. Qed.

Lemma untouched_by_propagation_trans a b c :
  untouched_by_propagation a b -> untouched_by_propagation b c ->
  untouched_by_propagation a c.
Proof.
  unfold untouched_by_propagation.
  intros (A1 & A2 & A3 & A4 & A5 & A6 & A7 & A8 & A9)
         (B1 & B2 & B3 & B4 & B5 & B6 & B7 & B8 & B9).
  repeat split; congruence.
Qed.

Lemma DoBasicBlock_environment_untouched graph b :
  keeps untouched_by_propagation (DoBasicBlock_environment graph b).
Proof.
  apply keeps_DoBasicBlock_environment;
    first [ exact untouched_by_propagation_refl
          | exact untouched_by_propagation_trans
          | intros; unfold untouched_by_propagation; simpl;
            repeat split; reflexivity ].
Qed.

(** The outgoing argument count of the first predecessor is what the
    propagation leaves in [argument_count_]. *)
Lemma DoBasicBlock_environment_count graph b s s' :
  DoBasicBlock_environment graph b s = Done (tt, s') ->
  (IsStartBlock (block_at graph b) = true ->
   argument_count_ (builder s') = 0 /\
   last_environment (store s') b = Some (start_environment graph)) /\
  (IsStartBlock (block_at graph b) = false ->
   forall pred rest,
     predecessors (block_at graph b) = pred :: rest ->
     argument_count_ (builder s') = argument_count (store s) pred).
Proof.
  intros H. unfold DoBasicBlock_environment in H.
  destruct (IsStartBlock (block_at graph b)).
  - split; [intros _ | intros E; discriminate E].
    inversion H; subst. simpl. unfold upd. rewrite Nat.eqb_refl. auto.
  - split; [intros E; discriminate E | intros _ pred rest Hp].
    rewrite Hp in H.
    pose proof untouched_by_propagation_refl as Hrefl.
    pose proof untouched_by_propagation_trans as Htrans.
    assert (Henvs : forall x s0,
               untouched_by_propagation s0
                 (with_store (store_environments x) s0))
      by (intros; unfold untouched_by_propagation; simpl;
          repeat split; reflexivity).
    assert (Hlast : forall b0 x s0,
               untouched_by_propagation s0
                 (with_store (store_last_environment b0 x) s0))
      by (intros; unfold untouched_by_propagation; simpl;
          repeat split; reflexivity).
    destruct (Nat.eqb (length (pred :: rest)) 1).
    + apply bind_Done in H as (u1 & s1 & H1 & H).
      apply (keeps_DCHECK _ Hrefl) in H1.
      apply bind_Done in H as (pred0 & s2 & H2 & H).
      inversion H2; subst pred0 s2; clear H2.
      apply bind_Done in H as (le & s3 & H3 & H).
      inversion H3; subst le s3; clear H3.
      apply bind_Done in H as (u4 & s4 & H4 & H).
      apply (keeps_DCHECK _ Hrefl) in H4.
      apply bind_Done in H as (last & s5 & H5 & H).
      apply (keeps_deref _ Hrefl) in H5.
      apply bind_Done in H as (last' & s6 & H6 & H).
      assert (R6 : untouched_by_propagation s5 s6).
      { revert H6. generalize s5 last' s6.
        change (keeps untouched_by_propagation
                  match SecondSuccessor (block_at graph pred) with
                  | Some second =>
                      first <- deref (FirstSuccessor (block_at graph pred)) ;;
                      (if Nat.ltb b first || Nat.ltb b second
                       then HEnvironment_Copy last
                       else ret last)
                  | None =>
                      DCHECK match FirstSuccessor (block_at graph pred) with
                             | Some first => Nat.eqb first b
                             | None => false
                             end ;;
                      ret last
                  end).
        repeat keeps_step.
        apply keeps_HEnvironment_Copy; assumption. }
      apply bind_Done in H as (u7 & s7 & H7 & H).
      apply (keeps_UpdateEnvironment _ Hlast) in H7.
      apply bind_Done in H as (count & s8 & H8 & H).
      inversion H8; subst count s8; clear H8.
      apply bind_Done in H as (u9 & s9 & H9 & H).
      apply (keeps_DCHECK _ Hrefl) in H9.
      inversion H; subst s'. simpl.
      assert (R : untouched_by_propagation s s7)
        by (eapply Htrans; [exact H1 |]; eapply Htrans; [exact H4 |];
            eapply Htrans; [exact H5 |]; eapply Htrans; [exact R6 |];
            exact H7).
      destruct R as (_ & _ & _ & _ & _ & _ & _ & R & _).
      rewrite R. reflexivity.
    + apply bind_Done in H as (pred0 & s2 & H2 & H).
      inversion H2; subst pred0 s2; clear H2.
      apply bind_Done in H as (le & s3 & H3 & H).
      inversion H3; subst le s3; clear H3.
      apply bind_Done in H as (last & s5 & H5 & H).
      apply (keeps_deref _ Hrefl) in H5.
      apply bind_Done in H as (u6 & s6 & H6 & H).
      assert (R6 : untouched_by_propagation s5 s6).
      { revert H6. generalize s5 u6 s6.
        apply keeps_for_each; [assumption | assumption |].
        intros phi. destruct (merged_index phi);
          [apply keeps_SetValueAt; assumption | apply keeps_ret; assumption]. }
      apply bind_Done in H as (u7 & s7 & H7 & H).
      assert (R7 : untouched_by_propagation s6 s7).
      { revert H7. generalize s6 u7 s7.
        apply keeps_for_each; [assumption | assumption |].
        intros deleted. repeat keeps_step.
        - apply keeps_environment; assumption.
        - apply keeps_SetValueAt; assumption. }
      apply bind_Done in H as (u8 & s8 & H8 & H).
      apply (keeps_UpdateEnvironment _ Hlast) in H8.
      apply bind_Done in H as (count & s9 & H9 & H).
      inversion H9; subst count s9; clear H9.
      inversion H; subst s'. simpl.
      assert (R : untouched_by_propagation s s8)
        by (eapply Htrans; [exact H5 |]; eapply Htrans; [exact R6 |];
            eapply Htrans; [exact R7 |]; exact H8).
      destruct R as (_ & _ & _ & _ & _ & _ & _ & R & _).
      rewrite R. reflexivity.
Qed.

Lemma DoBasicBlock_instructions_untouched smi graph depth chain :
  keeps untouched_by_visit (DoBasicBlock_instructions smi graph depth chain).
Proof.
  apply keeps_DoBasicBlock_instructions;
    first [ exact untouched_by_visit_refl
          | exact untouched_by_visit_trans
          | intros; unfold untouched_by_visit; simpl;
            repeat split; try reflexivity;
            match goal with
            | Hf : forall t, _ /\ _ |- _ => apply Hf
            end ].
Qed.

(** X8: the bookkeeping of [DoBasicBlock].  When the driver has finished
    a block, [current_block_] and [next_block_] are null again, the IR
    builder still inserts into the block's own native block (the handle
    the block held before, or the freshly created one), and the block's
    outgoing argument count is [argument_count_].  That count is not
    touched by any instruction of the block: it is 0 for the start block,
    which is bound to the graph's start environment, and the outgoing
    count of the first predecessor otherwise. *)
Theorem DoBasicBlock_bookkeeping
  (smi : bool) (graph : HGraph) (depth : nat) (b : BlockId)
  (next : option BlockId) (s s' : State) :
  DoBasicBlock smi graph depth b next s = Done (tt, s') ->
  current_block_ (builder s') = None /\
  next_block_ (builder s') = None /\
  llvm_ir_builder_ (builder s')
  = Some match llvm_basic_block (store s) b with
         | Some bb => bb
         | None => created_blocks (target s)
         end /\
  argument_count (store s') b = argument_count_ (builder s') /\
  (IsStartBlock (block_at graph b) = true ->
   argument_count_ (builder s') = 0 /\
   last_environment (store s') b = Some (start_environment graph)) /\
  (IsStartBlock (block_at graph b) = false ->
   forall pred rest,
     predecessors (block_at graph b) = pred :: rest ->
     argument_count_ (builder s') = argument_count (store s) pred).
Proof.
  intros H. unfold DoBasicBlock in H.
  apply bind_Done in H as (building & s0 & H0 & H).
  inversion H0; subst building s0; clear H0.
  apply bind_Done in H as (u1 & s1 & H1 & H).
  apply (keeps_DCHECK eq (@eq_refl State)) in H1. subst s1.
  apply bind_Done in H as (bb & s2 & H2 & H).
  assert (Hbb : bb = match llvm_basic_block (store s) b with
                     | Some bb => bb
                     | None => created_blocks (target s)
                     end /\
                builder s2 = builder s /\
                argument_count (store s2) = argument_count (store s)).
  { destruct (llvm_basic_block (store s) b) as [have |] eqn:Hb.
    - rewrite (UseBlock_known _ _ _ Hb) in H2.
      inversion H2; subst. auto.
    - rewrite (UseBlock_new _ _ Hb) in H2.
      inversion H2; subst. auto. }
  destruct Hbb as (Hbb & _ & Hcount). clear H2.
  apply bind_Done in H as (u3 & s3 & H3 & H).
  inversion H3; subst u3 s3; clear H3.
  apply bind_Done in H as (u4 & s4 & H4 & H).
  inversion H4; subst u4 s4; clear H4.
  apply bind_Done in H as (u5 & s5 & H5 & H).
  inversion H5; subst u5 s5; clear H5.
  apply bind_Done in H as (u6 & s6 & H6 & H).
  destruct u6.
  pose proof (DoBasicBlock_environment_untouched _ _ _ _ _ H6)
    as (_ & _ & _ & Hir & _).
  apply DoBasicBlock_environment_count in H6 as (Hstart & Hother).
  apply bind_Done in H as (u7 & s7 & H7 & H).
  apply DoBasicBlock_instructions_untouched in H7
    as (Hac & _ & _ & Hir' & _ & _ & _ & Hle & _).
  apply bind_Done in H as (count & s8 & H8 & H).
  inversion H8; subst count s8; clear H8.
  apply bind_Done in H as (u9 & s9 & H9 & H).
  inversion H9; subst u9 s9; clear H9.
  apply bind_Done in H as (u10 & s10 & H10 & H).
  inversion H10; subst u10 s10; clear H10.
  inversion H; subst s'; clear H.
  simpl in *.
  split; [reflexivity |]. split; [reflexivity |].
  split; [rewrite Hir', Hir, Hbb; reflexivity |].
  split; [unfold upd; rewrite Nat.eqb_refl; reflexivity |].
  split.
  - intros Hs. destruct (Hstart Hs) as (Hz & Hse).
    rewrite Hac, Hle. auto.
  - intros Hs pred rest Hp.
    rewrite Hac, (Hother Hs pred rest Hp), Hcount. reflexivity.
Qed.

(** X8 at the start block of the diamond graph, entered by a building
    builder: no block has a handle yet, so the IR builder is left on the
    first native block; the count is 0 and the block holds the start
    environment. *)
Lemma DoBasicBlock_bookkeeping_witness :
  exists s',
    DoBasicBlock true diamond_graph 3%nat 0%nat (Some 1%nat)
      (with_builder (set_status_ BUILDING) (initial_state [20; 21; 22]%nat))
    = Done (tt, s') /\
    current_block_ (builder s') = None /\
    next_block_ (builder s') = None /\
    llvm_ir_builder_ (builder s') = Some 0%nat /\
    argument_count (store s') 0%nat = 0 /\
    last_environment (store s') 0%nat = Some 0%nat.
Proof.
  eexists. split; [vm_compute; reflexivity |].
  match goal with
  | |- context [current_block_ (builder ?S)] =>
      destruct (DoBasicBlock_bookkeeping true diamond_graph 3%nat 0%nat
                  (Some 1%nat)
                  (with_builder (set_status_ BUILDING)
                     (initial_state [20; 21; 22]%nat)) S
                  ltac:(vm_compute; reflexivity))
        as (A & B & C & D & E & _)
  end.
  destruct (E eq_refl) as (E1 & E2).
  repeat split; try assumption.
Defined.

(* ------------------------------------------------------------------ *)
(** ** The module of a unit *)

Lemma same_session_refl s : same_session s s.
Proof. unfold same_session. repeat split; reflexivity. Qed.

Lemma same_session_trans a b c :
  same_session a b -> same_session b c -> same_session a c.
Proof.
  unfold same_session.
  intros (A1 & A2 & A3 & A4) (B1 & B2 & B3 & B4).
  repeat split; congruence.
Qed.

Lemma DoBasicBlock_same_session smi graph depth b next :
  keeps same_session (DoBasicBlock smi graph depth b next).
Proof.
  apply keeps_DoBasicBlock;
    first [ exact same_session_refl
          | exact same_session_trans
          | intros; unfold same_session; simpl;
            repeat split; try reflexivity;
            match goal with
            | Hf : forall t, _ /\ _ |- _ => apply Hf
            end ].
Qed.

Lemma Build_blocks_same_session smi graph depth bs :
  keeps same_session (Build_blocks smi graph depth bs).
Proof.
  induction bs as [| b rest IH]; simpl.
  - apply keeps_ret. exact same_session_refl.
  - apply keeps_bind; [exact same_session_trans | |].
    + apply DoBasicBlock_same_session.
    + intros _.
      apply keeps_bind; [exact same_session_trans | |].
      * apply keeps_get. exact same_session_refl.
      * intros [|]; [apply keeps_ret; exact same_session_refl | exact IH].
Qed.

Lemma Build_prologue_session graph s u s0 :
  Build_prologue graph s = Done (u, s0) ->
  module_ (builder s0) = Some (created_modules (target s)) /\
  chunk_ (builder s0) = Some (mkLLVMChunk None) /\
  created_modules (target s0) = S (created_modules (target s)) /\
  added_modules (target s0) = added_modules (target s).
Proof.
  unfold Build_prologue. intros Hp.
  apply bind_Done in Hp as (u1 & s1 & H1 & Hp).
  inversion H1; subst u1 s1; clear H1.
  apply bind_Done in Hp as (m & s2 & H2 & Hp).
  unfold CreateModule, bind, get, modify, ret in H2.
  inversion H2; subst m s2; clear H2.
  apply bind_Done in Hp as (u3 & s3 & H3 & Hp).
  inversion H3; subst u3 s3; clear H3.
  apply bind_Done in Hp as (u4 & s4 & H4 & Hp).
  inversion H4; subst u4 s4; clear H4.
  apply bind_Done in Hp as (ft & s5 & Hft & Hp).
  rewrite Build_function_type_eq in Hft.
  inversion Hft; subst ft s5; clear Hft.
  apply bind_Done in Hp as (u6 & s6 & H6 & Hp).
  inversion H6; subst u6 s6; clear H6.
  inversion Hp; subst s0.
  simpl. repeat split; reflexivity.
Qed.

(** X16: what [Build] does with the unit's module.  Every [Build] that
    returns has created exactly one module in the session.  When it
    returns null, that module has not been handed over: the session's
    list of added modules is as before, [module_] still holds the module
    and [chunk_] the chunk that was allocated, without a function id.
    When it returns a chunk, the chunk is [chunk_], its function id is
    the identifier of the created module, that module has been added to
    the session last, and [module_] is null. *)
Theorem Build_module_handover
  (smi : bool) (graph : HGraph) (depth : nat) (s s' : State)
  (r : option LLVMChunk) :
  Build smi graph depth s = Done (r, s') ->
  created_modules (target s') = S (created_modules (target s)) /\
  match r with
  | None =>
      added_modules (target s') = added_modules (target s) /\
      module_ (builder s') = Some (created_modules (target s)) /\
      chunk_ (builder s') = Some (mkLLVMChunk None)
  | Some c =>
      c = mkLLVMChunk (Some (created_modules (target s))) /\
      added_modules (target s')
      = added_modules (target s) ++ [created_modules (target s)] /\
      module_ (builder s') = None /\
      chunk_ (builder s') = Some c
  end.
Proof.
  unfold Build. intros H.
  apply bind_Done in H as (u & s0 & Hp & H).
  apply Build_prologue_session in Hp as (P1 & P2 & P3 & P4).
  apply bind_Done in H as (a & s1 & Hloop & H).
  apply Build_blocks_same_session in Hloop as (L1 & L2 & L3 & L4).
  destruct a.
  - inversion H; subst r s'; clear H.
    split; [congruence |]. repeat split; congruence.
  - apply bind_Done in H as (module & s2 & H2 & H).
    inversion H2; subst module s2; clear H2.
    rewrite L1, P1 in H.
    unfold DCHECK, deref, AddModule, bind, get, modify, ret in H.
    simpl in H.
    inversion H; subst r s'; clear H.
    simpl. split; [congruence |].
    repeat split; try reflexivity.
    rewrite L4, P4. reflexivity.
Qed.

(** X16 on the diamond graph, whose unit is finished: module 0 is
    created and added, and the chunk carries its identifier. *)
Lemma Build_module_handover_witness :
  exists s',
    Build true diamond_graph 3%nat
      (with_builder (fun _ => new_builder) (initial_state [20; 21; 22]%nat))
    = Done (Some (mkLLVMChunk (Some 0%nat)), s') /\
    created_modules (target s') = 1%nat /\
    added_modules (target s') = [0%nat] /\
    module_ (builder s') = None.
Proof.
  eexists. split; [vm_compute; reflexivity |].
  match goal with
  | |- context [created_modules (target ?S)] =>
      destruct (Build_module_handover true diamond_graph 3%nat
                  (with_builder (fun _ => new_builder)
                     (initial_state [20; 21; 22]%nat)) S
                  (Some (mkLLVMChunk (Some 0%nat)))
                  ltac:(vm_compute; reflexivity))
        as (A & _ & B & C & _)
  end.
  repeat split; assumption.
Defined.

(* ------------------------------------------------------------------ *)
(** ** Instructions without code *)

(** X17: the instructions that emit nothing.  A visit of an arguments
    object, of a stack check, or of a context that has no uses or belongs
    to a unit that is not a stub, returns and leaves the whole state as
    it found it: no native value is bound to the instruction, nothing is
    inserted, the status is kept and [current_instruction_] is back. *)
Theorem VisitInstruction_emits_nothing
  (smi : bool) (graph : HGraph) (depth : nat) (current : HValueId)
  (s : State) :
  CanReplaceWithDummyUses (value_at graph current) = false ->
  IsControlInstruction (value_at graph current) = false ->
  operation (value_at graph current) = HArgumentsObject \/
  operation (value_at graph current) = HStackCheck \/
  (operation (value_at graph current) = HContext /\
   (HasNoUses (value_at graph current) = true \/
    IsStub (info graph) = false)) ->
  VisitInstruction smi graph (S depth) current s = Done (tt, s).
Proof.
  intros Hd Hc Hop.
  assert (Hnop : CompileToLLVM smi graph (VisitInstruction smi graph depth)
                   current
                   (with_builder (set_current_instruction_ (Some current)) s)
                 = Done (tt, with_builder
                               (set_current_instruction_ (Some current)) s)).
  { unfold CompileToLLVM.
    destruct Hop as [Hop | [Hop | (Hop & Hu)]]; rewrite Hop.
    - reflexivity.
    - reflexivity.
    - unfold DoContext.
      destruct Hu as [Hu | Hu]; rewrite Hu.
      + reflexivity.
      + destruct (HasNoUses (value_at graph current)); reflexivity. }
  simpl. unfold VisitInstruction_body.
  unfold bind at 1. unfold get.
  unfold bind at 1. unfold modify at 1.
  rewrite Hd, Hc.
  unfold bind. rewrite Hnop. unfold modify.
  destruct s as [[st ci cb nb ac ir fn md ch] g t]. reflexivity.
Qed.

(** X17 on a stack check in a builder that is inside instruction 8. *)
Lemma VisitInstruction_emits_nothing_witness :
  VisitInstruction true dummy_use_graph 1%nat 5%nat visiting_state
  = Done (tt, visiting_state).
Proof.
  apply VisitInstruction_emits_nothing.
  - reflexivity.
  - reflexivity.
  - right. left. reflexivity.
Defined.

(* ------------------------------------------------------------------ *)
(** ** Join blocks in the driver *)

(** [DoBasicBlock] up to the environment propagation: the block's native
    block is resolved and becomes the insertion block. *)
Lemma DoBasicBlock_enters smi graph depth b next s :
  is_building s = true ->
  exists bb s0,
    DoBasicBlock smi graph depth b next s
    = (DoBasicBlock_environment graph b ;;
       DoBasicBlock_rest smi graph depth b) s0 /\
    llvm_ir_builder_ (builder s0) = Some bb /\
    llvm_basic_block (store s0) b = Some bb /\
    last_environment (store s0) = last_environment (store s) /\
    environments (store s0) = environments (store s) /\
    argument_count (store s0) = argument_count (store s).
Proof.
  intros Hb. unfold DoBasicBlock.
  unfold bind at 1. unfold get at 1. rewrite Hb.
  unfold bind at 1. unfold DCHECK at 1. unfold ret at 1.
  destruct (llvm_basic_block (store s) b) as [bb |] eqn:Hbb.
  - rewrite (bind_eq _ _ _ _ _ (UseBlock_known _ _ _ Hbb)).
    exists bb. eexists. split; [reflexivity |].
    simpl. repeat split; try reflexivity. exact Hbb.
  - rewrite (bind_eq _ _ _ _ _ (UseBlock_new _ _ Hbb)).
    exists (created_blocks (target s)). eexists. split; [reflexivity |].
    simpl. repeat split; try reflexivity.
    unfold upd. rewrite Nat.eqb_refl. reflexivity.
Qed.

(** C3: [DoBasicBlock] on a join.  For a block [b] that is not the start
    block and has more than one predecessor, the first of them, [pred],
    ending in the environment object [e], a building [DoBasicBlock]
    comes to its instruction loop in a state [s1] where [b] is bound to
    the object [e] itself -- no environment object has been created --
    and [e] holds [pred]'s slots overwritten, first, with each phi's
    value at the slot the phi was merged into and, then, with the
    undefined constant at each deleted-phi slot that the environment has;
    [argument_count_] is [pred]'s outgoing argument count.  So, in the
    object: every deleted-phi slot within the length holds the undefined
    constant; every other slot that one phi was merged into holds that
    phi's value; the remaining slots are as [pred] left them.  When
    [DoBasicBlock] returns, [b] is still bound to [e] and [b]'s outgoing
    argument count is [pred]'s. *)
Theorem DoBasicBlock_join
  (smi : bool) (graph : HGraph) (depth : nat)
  (b pred other : BlockId) (others : list BlockId) (next : option BlockId)
  (s : State) (e : EnvRef) (env : HEnvironment) :
  is_building s = true ->
  IsStartBlock (block_at graph b) = false ->
  predecessors (block_at graph b) = pred :: other :: others ->
  last_environment (store s) pred = Some e ->
  nth_error (environments (store s)) e = Some env ->
  (forall phi index,
     In phi (phis (block_at graph b)) -> merged_index phi = Some index ->
     (index < length env)%nat) ->
  let undefined := GetConstantUndefined graph in
  let deleted := deleted_phis (block_at graph b) in
  let merged :=
    with_deleted_phis deleted undefined
      (with_phis (phis (block_at graph b)) env) in
  exists s1,
    DoBasicBlock smi graph depth b next s
    = DoBasicBlock_rest smi graph depth b s1 /\
    last_environment (store s1) b = Some e /\
    length (environments (store s1)) = length (environments (store s)) /\
    nth_error (environments (store s1)) e = Some merged /\
    argument_count_ (builder s1) = argument_count (store s) pred /\
    (forall s',
       DoBasicBlock smi graph depth b next s = Done (tt, s') ->
       last_environment (store s') b = Some e /\
       argument_count (store s') b = argument_count (store s) pred) /\
    (forall d, In d deleted -> (d < length env)%nat ->
               nth_error merged d = Some undefined) /\
    (forall phi index,
       In phi (phis (block_at graph b)) -> merged_index phi = Some index ->
       ~ In index deleted ->
       (forall phi', In phi' (phis (block_at graph b)) ->
                     merged_index phi' = Some index ->
                     phi_value phi' = phi_value phi) ->
       nth_error merged index = Some (phi_value phi)) /\
    (forall j,
       (forall phi, In phi (phis (block_at graph b)) ->
                    merged_index phi <> Some j) ->
       ~ In j deleted ->
       nth_error merged j = nth_error env j).
Proof.
  intros Hb Hstart Hpred Hle He Hin undefined deleted merged.
  destruct (DoBasicBlock_enters smi graph depth b next s Hb)
    as (bb & s0 & Heq & _ & _ & Hle0 & He0 & Hac0).
  rewrite <- Hle0 in Hle. rewrite <- He0 in He.
  destruct (join_propagation graph b pred other others s0 e env
              Hstart Hpred Hle He Hin)
    as (s1 & Hrun & H1 & H2 & H3 & H4 & H5 & H6 & H7).
  rewrite (bind_eq _ _ _ _ _ Hrun) in Heq.
  exists s1.
  split; [exact Heq |].
  split; [exact H1 |].
  split; [rewrite H2, He0; reflexivity |].
  split; [exact H3 |].
  split; [rewrite H4, Hac0; reflexivity |].
  split; [| split; [exact H5 | split; [exact H6 | exact H7]]].
  intros s' Hs'. rewrite Heq in Hs'. unfold DoBasicBlock_rest in Hs'.
  apply bind_Done in Hs' as (u & s2 & Hloop & Hs').
  apply DoBasicBlock_instructions_untouched in Hloop
    as (Hac & _ & _ & _ & _ & _ & _ & Hlast & _).
  unfold bind, get, modify in Hs'. inversion Hs'; subst s'; clear Hs'.
  simpl. split.
  - rewrite Hlast. exact H1.
  - unfold upd. rewrite Nat.eqb_refl, Hac, H4, Hac0. reflexivity.
Qed.

(** C3 on [diamond_graph]: block 3 joins blocks 1 and 2.  [DoBasicBlock],
    after the blocks 0, 1 and 2, returns with block 3 bound to block 1's
    environment object, slot 0 holding the phi (10), slot 1 the undefined
    constant (11, a deleted phi), slot 2 untouched; the deleted phi 5 is
    out of range and ignored.  No environment object was added. *)
Lemma DoBasicBlock_join_witness :
  exists s s',
    (Build_prologue diamond_graph ;;
     DoBasicBlock true diamond_graph 3%nat 0%nat (Some 1%nat) ;;
     DoBasicBlock true diamond_graph 3%nat 1%nat (Some 2%nat) ;;
     DoBasicBlock true diamond_graph 3%nat 2%nat (Some 3%nat))
      (with_builder (fun _ => new_builder)
                    (initial_state [20; 21; 22]%nat)) = Done (tt, s) /\
    last_environment (store s) 1%nat = Some 1%nat /\
    nth_error (environments (store s)) 1 = Some [20; 21; 22]%nat /\
    DoBasicBlock true diamond_graph 3%nat 3%nat None s = Done (tt, s') /\
    last_environment (store s') 3%nat = Some 1%nat /\
    argument_count (store s') 3%nat = argument_count (store s) 1%nat /\
    nth_error (environments (store s')) 1 = Some [10; 11; 22]%nat /\
    length (environments (store s')) = 2%nat.
Proof.
  eexists. eexists.
  split; [vm_compute; reflexivity |].
  split; [vm_compute; reflexivity |].
  split; [vm_compute; reflexivity |].
  split; [vm_compute; reflexivity |].
  match goal with
  | |- last_environment (store ?S') _ = _ /\
       _ = argument_count (store ?S) _ /\ _ =>
      destruct (DoBasicBlock_join true diamond_graph 3%nat
                  3%nat 1%nat 2%nat [] None S 1%nat
                  [20; 21; 22]%nat
                  ltac:(vm_compute; reflexivity) eq_refl eq_refl
                  ltac:(vm_compute; reflexivity)
                  ltac:(vm_compute; reflexivity)
                  ltac:(intros phi index [<- | []] H; injection H as <-;
                        vm_compute; lia))
        as (s1 & _ & _ & _ & _ & _ & Hend & _);
      destruct (Hend S' ltac:(vm_compute; reflexivity)) as (Hle & Hac)
  end.
  split; [exact Hle |]. split; [exact Hac |].
  split; vm_compute; reflexivity.
Defined.

(* ------------------------------------------------------------------ *)
(** ** Abort of the unit *)










